(** * SQL syntax validator (public/validate_sql.py)

    A shallow embedding of [validate_sql_syntax] and [main], and the
    properties of the line scan: which findings are produced for which
    lines, how they are numbered, the exit status and the statement count. *)

From Stdlib Require Import String Ascii.
From Stdlib Require Import List NArith Arith Bool Lia Sorted.
From Stdlib Require Decimal DecimalNat.
From Equations Require Import Equations.
From Equations.Prop Require Import Logic.
Import ListNotations.

(** ** Python [str] values

    A Python string is a sequence of Unicode code points.  Code points are
    kept as numbers in [N], so that the whitespace set of [str.strip] and
    the non-ASCII characters printed by [main] are represented as they are. *)

Module Py.

Definition char := N.
Definition str := list char.

(** An ASCII literal of the source, as a sequence of code points. *)
Definition lit (s : string) : str := map N_of_ascii (list_ascii_of_string s).

Definition chr_eqb (a b : char) : bool := N.eqb a b.

(** [str.isspace] on one code point, the set used by [str.strip()]:
    U+0009..U+000D, U+001C..U+0020, U+0085, U+00A0, U+1680,
    U+2000..U+200A, U+2028, U+2029, U+202F, U+205F, U+3000. *)
Definition isspace (c : char) : bool :=
  (((9 <=? c) && (c <=? 13)) || ((28 <=? c) && (c <=? 32))
   || (c =? 133) || (c =? 160) || (c =? 5760)
   || ((8192 <=? c) && (c <=? 8202))
   || (c =? 8232) || (c =? 8233) || (c =? 8239) || (c =? 8287)
   || (c =? 12288))%N.

Fixpoint lstrip (s : str) : str :=
  match s with
  | [] => []
  | c :: r => if isspace c then lstrip r else s
  end.

Definition rstrip (s : str) : str := rev (lstrip (rev s)).

(** [s.strip()] *)
Definition strip (s : str) : str := rstrip (lstrip s).

(** [s.startswith(p)] *)
Fixpoint startswith (s p : str) {struct p} : bool :=
  match p with
  | [] => true
  | a :: p' =>
      match s with
      | [] => false
      | b :: s' => chr_eqb a b && startswith s' p'
      end
  end.

(** [s.endswith(p)] *)
Definition endswith (s p : str) : bool := startswith (rev s) (rev p).

(** [p in s] *)
Fixpoint contains (p s : str) : bool :=
  startswith s p ||
  match s with
  | [] => false
  | _ :: r => contains p r
  end.

(** [s.split(sep)] for a separator of one character. *)
Fixpoint split (sep : char) (s : str) : list str :=
  match s with
  | [] => [[]]
  | c :: r =>
      if chr_eqb c sep then [] :: split sep r
      else match split sep r with
           | piece :: pieces => (c :: piece) :: pieces
           | [] => [[c]]
           end
  end.

(** [l[a:b]] for indices [0 <= a] and [0 <= b]: out-of-range bounds are
    clamped to the length, and the slice is empty when [b <= a]. *)
Definition slice {A} (l : list A) (a b : nat) : list A :=
  firstn (b - a) (skipn a l).

(** [''.join(l)] *)
Definition join (l : list str) : str := concat l.

(** [c * n] for a string [c]. *)
Fixpoint repeat_str (c : str) (n : nat) : str :=
  match n with
  | 0 => []
  | S n' => c ++ repeat_str c n'
  end.

Fixpoint digits (d : Decimal.uint) : str :=
  match d with
  | Decimal.Nil => []
  | Decimal.D0 d' => 48%N :: digits d'
  | Decimal.D1 d' => 49%N :: digits d'
  | Decimal.D2 d' => 50%N :: digits d'
  | Decimal.D3 d' => 51%N :: digits d'
  | Decimal.D4 d' => 52%N :: digits d'
  | Decimal.D5 d' => 53%N :: digits d'
  | Decimal.D6 d' => 54%N :: digits d'
  | Decimal.D7 d' => 55%N :: digits d'
  | Decimal.D8 d' => 56%N :: digits d'
  | Decimal.D9 d' => 57%N :: digits d'
  end.

(** [f"{n}"] for a non-negative integer: its decimal digits. *)
Definition format_int (n : nat) : str := digits (Nat.to_uint n).

End Py.

Import Py.

(** ** The validator *)

Definition NEWLINE : char := 10%N.
Definition SEMICOLON : char := 59%N.
Definition COLON : char := 58%N.

Definition COMMENT : str := lit "--".
Definition ADD_CONSTRAINT : str := lit "ADD CONSTRAINT IF NOT EXISTS".
Definition DO_OPEN : str := lit "DO $$".
Definition DO_CLOSE : str := lit "$$;".
Definition CREATE_FUNCTION : str := lit "CREATE OR REPLACE FUNCTION".
Definition DOLLARS : str := lit "$$".

(** The three messages, [f"Line {i}: ..."]. *)
Definition constraint_error (i : nat) : str :=
  lit "Line " ++ format_int i
  ++ lit ": 'ADD CONSTRAINT IF NOT EXISTS' is not valid PostgreSQL syntax".

Definition do_block_error (i : nat) : str :=
  lit "Line " ++ format_int i ++ lit ": DO block not properly closed".

Definition function_warning (i : nat) : str :=
  lit "Line " ++ format_int i
  ++ lit ": Function may be missing proper delimiters".

(** *** The forward scan of a DO block

    [[
      j = i
      while j < len(lines):
          block_content.append(lines[j-1])
          if lines[j-1].strip().endswith('$$;'):
              break
          j += 1
      else:
          errors.append(...)
    ]]

    The loop state is the index [j]; [block_content] is written and never
    read.  [j] starts at the 1-based line number [i >= 1], so [j-1] is a
    valid index whenever the loop test holds. *)

Inductive scan_outcome :=
| Break       (* left by [break]: the [else] suite is skipped *)
| Exhausted.  (* the loop test failed: the [else] suite runs *)

Inductive loop_state :=
| Running (j : nat)
| Exited (o : scan_outcome).

(** One evaluation of the loop test followed, when it holds, by the body. *)
Definition scan_step (lines : list str) (j : nat) : loop_state :=
  if j <? length lines then
    if endswith (strip (nth (j - 1) lines [])) DO_CLOSE then Exited Break
    else Running (j + 1)
  else Exited Exhausted.

(** The loop, run to its exit. *)
Equations? block_scan (lines : list str) (j : nat) : scan_outcome
  by wf (length lines - j) lt :=
  block_scan lines j with inspect (scan_step lines j) := {
    | @exist (Exited o) _ => o
    | @exist (Running j') Hstep => block_scan lines j' }.
Proof.
  unfold scan_step in Hstep.
  destruct (Nat.ltb_spec j (length lines)) as [Hlt|Hge]; [|discriminate].
  destruct (endswith _ _); inversion Hstep. lia.
Qed.

(** The loop, run for at most [fuel] evaluations of its test. *)
Fixpoint scan_fuel (fuel : nat) (lines : list str) (j : nat)
  : option scan_outcome :=
  match fuel with
  | 0 => None
  | S fuel' =>
      match scan_step lines j with
      | Exited o => Some o
      | Running j' => scan_fuel fuel' lines j'
      end
  end.

(** *** The body of the [for] loop

    [st] is the pair of the two lists [errors] and [warnings] that the
    body appends to. *)
Definition check_line (lines : list str) (i : nat) (raw : str)
  (st : list str * list str) : list str * list str :=
  let '(errors, warnings) := st in
  let line := strip raw in
  if match line with [] => true | _ => false end || startswith line COMMENT
  then st
  else
    let errors :=
      if contains ADD_CONSTRAINT line
      then errors ++ [constraint_error i] else errors in
    let errors :=
      if startswith line DO_OPEN && negb (endswith line DO_CLOSE) then
        match block_scan lines i with
        | Break => errors
        | Exhausted => errors ++ [do_block_error i]
        end
      else errors in
    let warnings :=
      if contains CREATE_FUNCTION line then
        if negb (contains DOLLARS (join (slice lines (i - 1) (i + 10))))
        then warnings ++ [function_warning i] else warnings
      else warnings in
    (errors, warnings).

(** [for i, line in enumerate(lines, 1)], from the line numbered [i] on. *)
Fixpoint for_lines (lines : list str) (i : nat) (rest : list str)
  (st : list str * list str) : list str * list str :=
  match rest with
  | [] => st
  | raw :: rest' => for_lines lines (S i) rest' (check_line lines i raw st)
  end.

Definition validate_sql_syntax (sql_content : str) : list str * list str :=
  let lines := split NEWLINE sql_content in
  for_lines lines 1 lines ([], []).

(** *** The reporter

    Opening and reading the file either raises an exception or yields the
    text of the file.  Standard output is the list of the strings passed
    to [print].  [main] either returns a status or is left by an exception
    that its [except FileNotFoundError] clause does not catch. *)

Inductive exception :=
| FileNotFoundError
| IsADirectoryError
| PermissionError
| OtherOSError            (* any other [OSError] raised by [open] *)
| UnicodeDecodeError.     (* raised by [f.read()] *)

Inductive open_result :=
| Raised (e : exception)
| Opened (sql_content : str).

Inductive completion :=
| Returned (status : nat)
| Uncaught (e : exception).

Definition CROSS_MARK : str := [10060%N].               (* U+274C *)
Definition CHECK_MARK : str := [9989%N].                (* U+2705 *)
Definition WARNING_SIGN : str := [9888%N; 65039%N].     (* U+26A0 U+FE0F *)
Definition BAR_CHART : str := [128202%N].               (* U+1F4CA *)

Definition statement_line (n : nat) : str :=
  NEWLINE :: BAR_CHART ++ lit " File contains " ++ format_int n
  ++ lit " SQL statements".

Definition not_found_line : str := CROSS_MARK ++ lit " SQL file not found".

Definition main (file : open_result) : list str * completion :=
  match file with
  | Raised FileNotFoundError => ([not_found_line], Returned 1)
  | Raised e => ([], Uncaught e)
  | Opened sql_content =>
      let '(errors, warnings) := validate_sql_syntax sql_content in
      let out :=
        [lit "SQL Syntax Validation Results:"; repeat_str (lit "=") 40] in
      let out :=
        match errors with
        | _ :: _ =>
            out
            ++ [CROSS_MARK ++ lit " ERRORS FOUND ("
                ++ format_int (length errors) ++ lit "):"]
            ++ map (fun error => lit "  " ++ error) errors
        | [] => out ++ [CHECK_MARK ++ lit " No syntax errors found"]
        end in
      let out :=
        match warnings with
        | _ :: _ =>
            out
            ++ [NEWLINE :: WARNING_SIGN ++ lit " WARNINGS ("
                ++ format_int (length warnings) ++ lit "):"]
            ++ map (fun warning => lit "  " ++ warning) warnings
        | [] => out ++ [CHECK_MARK ++ lit " No warnings"]
        end in
      let out :=
        out ++ [statement_line (length (split SEMICOLON sql_content))] in
      let out :=
        out ++ [match errors with
                | [] => CHECK_MARK ++ lit " Ready for deployment"
                | _ :: _ => CROSS_MARK ++ lit " Fix errors before deployment"
                end] in
      (out, Returned match errors with [] => 0 | _ :: _ => 1 end)
  end.

(** [sys.exit(main())]: the exit status of the process is the value that
    [main] returns; an exception that leaves [main] ends the interpreter
    with a traceback on standard error and status 1. *)
Definition process_status (c : completion) : nat :=
  match c with
  | Returned status => status
  | Uncaught _ => 1
  end.

(** The exit status of a run on a file that holds [sql_content]. *)
Definition exit_code (sql_content : str) : nat :=
  process_status (snd (main (Opened sql_content))).



(** *** The validator with a bounded loop

    The same scan with the [while] loop cut after [fuel] evaluations of its
    test; [None] means that the bound was reached before the loop exited. *)
Definition check_line_fuel (fuel : nat) (lines : list str) (i : nat)
  (raw : str) (st : list str * list str) : option (list str * list str) :=
  let '(errors, warnings) := st in
  let line := strip raw in
  if match line with [] => true | _ => false end || startswith line COMMENT
  then Some st
  else
    let errors :=
      if contains ADD_CONSTRAINT line
      then errors ++ [constraint_error i] else errors in
    let scanned :=
      if startswith line DO_OPEN && negb (endswith line DO_CLOSE) then
        match scan_fuel fuel lines i with
        | None => None
        | Some Break => Some errors
        | Some Exhausted => Some (errors ++ [do_block_error i])
        end
      else Some errors in
    match scanned with
    | None => None
    | Some errors =>
        let warnings :=
          if contains CREATE_FUNCTION line then
            if negb (contains DOLLARS (join (slice lines (i - 1) (i + 10))))
            then warnings ++ [function_warning i] else warnings
          else warnings in
        Some (errors, warnings)
    end.

Fixpoint for_lines_fuel (fuel : nat) (lines : list str) (i : nat)
  (rest : list str) (st : list str * list str)
  : option (list str * list str) :=
  match rest with
  | [] => Some st
  | raw :: rest' =>
      match check_line_fuel fuel lines i raw st with
      | None => None
      | Some st' => for_lines_fuel fuel lines (S i) rest' st'
      end
  end.

Definition validate_fuel (fuel : nat) (sql_content : str)
  : option (list str * list str) :=
  let lines := split NEWLINE sql_content in
  for_lines_fuel fuel lines 1 lines ([], []).

(** ** Definitions used in the statements

    The pieces of a split joined back by the separator. *)
Fixpoint join_with (sep : char) (pieces : list str) : str :=
  match pieces with
  | [] => []
  | [piece] => piece
  | piece :: rest => piece ++ sep :: join_with sep rest
  end.

(** The lines that the loop started at [j] looks at are those numbered
    [j], ..., [len(lines) - 1]: the test [j < len(lines)] fails at the
    number of the last line. *)
Definition closes (lines : list str) (m : nat) : bool :=
  endswith (strip (nth (m - 1) lines [])) DO_CLOSE.

(** The findings of one line, and of the lines from a given one on. *)
Definition skipped (line : str) : bool :=
  match line with [] => true | _ => false end || startswith line COMMENT.

Definition opens_block (line : str) : bool :=
  startswith line DO_OPEN && negb (endswith line DO_CLOSE).

(** The line and the ten that follow it, [lines[i-1:i+10]], for the line
    numbered [i]. *)
Definition window (lines : list str) (i : nat) : list str :=
  firstn 11 (skipn (i - 1) lines).

Definition line_errors (lines : list str) (i : nat) (raw : str) : list str :=
  let line := strip raw in
  if skipped line then []
  else
    (if contains ADD_CONSTRAINT line then [constraint_error i] else [])
    ++ (if opens_block line then
          match block_scan lines i with
          | Break => []
          | Exhausted => [do_block_error i]
          end
        else []).

Definition line_warnings (lines : list str) (i : nat) (raw : str)
  : list str :=
  let line := strip raw in
  if skipped line then []
  else if contains CREATE_FUNCTION line
            && negb (contains DOLLARS (join (window lines i)))
       then [function_warning i] else [].

Fixpoint errors_from (lines : list str) (i : nat) (rest : list str)
  : list str :=
  match rest with
  | [] => []
  | raw :: rest' => line_errors lines i raw ++ errors_from lines (S i) rest'
  end.

Fixpoint warnings_from (lines : list str) (i : nat) (rest : list str)
  : list str :=
  match rest with
  | [] => []
  | raw :: rest' =>
      line_warnings lines i raw ++ warnings_from lines (S i) rest'
  end.

Definition str_eq_dec : forall a b : str, {a = b} + {a <> b} :=
  list_eq_dec N.eq_dec.

(** Documents of several lines, for the scenarios. *)
Definition unlines (ls : list string) : str :=
  match ls with
  | [] => []
  | l :: ls' => fold_left (fun acc x => acc ++ NEWLINE :: lit x) ls' (lit l)
  end.

(** ** Scenarios *)

Definition scenario1 : str := lit "SELECT 1;".
Definition scenario2 : str :=
  lit "ALTER TABLE t ADD CONSTRAINT IF NOT EXISTS ck CHECK (x>0);".
Definition scenario3 : str :=
  unlines ["DO $$"; "BEGIN"; "  NULL;"; "END"]%string.
Definition scenario4 : str :=
  unlines ["DO $$"; "BEGIN NULL; END $$;"]%string.
Definition scenario5 : str :=
  lit "CREATE OR REPLACE FUNCTION f() RETURNS int AS BEGIN RETURN 1; END;".
Definition scenario6 : str := lit "".

(** Further documents. *)
Definition commented_document : str :=
  unlines ["  -- DO $$"; ""; "SELECT 1; -- no trigger"]%string.

Definition numbered_document : str :=
  unlines [""; "-- a comment"; "   ";
           "ALTER TABLE t ADD CONSTRAINT IF NOT EXISTS c CHECK (x>0);"]%string.

Definition lower_case_document : str :=
  unlines ["alter table t add constraint if not exists ck check (x>0);";
           "do $$";
           "create or replace function f() returns int as 1;"]%string.

Definition openers_document : str :=
  unlines ["DO $$"; "DO $$"; "BEGIN"; "END $$;"; "DO $$"; "END"]%string.

(** ** Definitions used in the further properties

    An error is determined by its line number and its kind; within a line
    the constraint clause is checked before the block. *)
Inductive error_kind := ConstraintClause | UnclosedBlock.

Definition render_error (f : nat * error_kind) : str :=
  match snd f with
  | ConstraintClause => constraint_error (fst f)
  | UnclosedBlock => do_block_error (fst f)
  end.

Definition finding_lt (f g : nat * error_kind) : Prop :=
  fst f < fst g
  \/ (fst f = fst g /\ snd f = ConstraintClause /\ snd g = UnclosedBlock).

Definition DOLLAR : char := 36%N.

(** The document with every line replaced by its stripped form. *)
Definition strip_lines (sql_content : str) : str :=
  join_with NEWLINE (map strip (split NEWLINE sql_content)).

(** Documents for the further properties. *)
Definition function_document : str :=
  unlines ["-- migration"; "CREATE OR REPLACE FUNCTION f()";
           "RETURNS int AS"; "BEGIN RETURN 1; END;"]%string.

Definition block_document : str :=
  unlines ["DO $$"; "BEGIN"; "END $$;"; ""]%string.

Definition split_marker_document : str :=
  unlines ["CREATE OR REPLACE FUNCTION f() RETURNS int AS $";
           "$ SELECT 1"]%string.

(** A string that does not begin with whitespace. *)
Definition head_not_space (t : str) : Prop :=
  match t with
  | [] => True
  | c :: _ => isspace c = false
  end.

(** What [print] writes for a list of arguments: each string followed by
    a newline. *)
Definition stdout_text (out : list str) : str :=
  concat (map (fun s => s ++ [NEWLINE]) out).

Definition leads_newline (s : str) : bool :=
  match s with
  | c :: _ => chr_eqb c NEWLINE
  | [] => false
  end.

(** A printed string that holds no newline, or only a leading one. *)
Definition printed_ok (s : str) : Prop :=
  ~ In NEWLINE s \/ exists r, s = NEWLINE :: r /\ ~ In NEWLINE r.

(** ** Facts about the string primitives *)

Lemma chr_eqb_eq a b : chr_eqb a b = true <-> a = b.
Proof. apply N.eqb_eq. Qed.

Lemma chr_eqb_refl a : chr_eqb a a = true.
Proof. apply N.eqb_refl. Qed.

Lemma startswith_app p q : startswith (p ++ q) p = true.
Proof.
  induction p as [|a p IH]; simpl; [reflexivity|].
  now rewrite chr_eqb_refl.
Qed.

Lemma startswith_iff s p :
  startswith s p = true <-> exists q, s = p ++ q.
Proof.
  split.
  - revert s. induction p as [|a p IH]; intros s H.
    + now exists s.
    + destruct s as [|b s]; simpl in H; [discriminate|].
      apply andb_true_iff in H as [Hab Hs].
      apply chr_eqb_eq in Hab. subst b.
      destruct (IH _ Hs) as [q ->]. now exists q.
  - intros [q ->]. apply startswith_app.
Qed.

Lemma endswith_iff s p :
  endswith s p = true <-> exists q, s = q ++ p.
Proof.
  unfold endswith. rewrite startswith_iff. split.
  - intros [q Hq]. exists (rev q).
    rewrite <- (rev_involutive s), Hq, rev_app_distr.
    now rewrite rev_involutive.
  - intros [q ->]. exists (rev q). apply rev_app_distr.
Qed.

Lemma contains_startswith p s :
  startswith s p = true -> contains p s = true.
Proof.
  intros H. destruct s; simpl; now rewrite H.
Qed.

Lemma contains_iff p s :
  contains p s = true <-> exists a b, s = a ++ p ++ b.
Proof.
  split.
  - induction s as [|c s IH]; simpl; intros H.
    + rewrite orb_false_r in H. apply startswith_iff in H as [q Hq].
      now exists [], q.
    + apply orb_true_iff in H as [H|H].
      * apply startswith_iff in H as [q Hq]. now exists [], q.
      * destruct (IH H) as (a & b & ->). now exists (c :: a), b.
  - intros (a & b & ->). induction a as [|c a IH].
    + apply contains_startswith. exact (startswith_app p b).
    + change (startswith (c :: a ++ p ++ b) p
              || contains p (a ++ p ++ b) = true).
      rewrite IH. apply orb_true_r.
Qed.

Lemma contains_false_iff p s :
  contains p s = false <-> forall a b, s <> a ++ p ++ b.
Proof.
  split.
  - intros H a b E.
    assert (contains p s = true) by (apply contains_iff; eauto).
    congruence.
  - intros H. destruct (contains p s) eqn:E; [|reflexivity].
    apply contains_iff in E as (a & b & E). now destruct (H a b).
Qed.

(** A pattern whose first character is not whitespace occurs in a string
    as soon as it occurs after the leading whitespace is dropped, and
    conversely. *)
Lemma contains_lstrip c p s :
  isspace c = false -> contains (c :: p) (lstrip s) = contains (c :: p) s.
Proof.
  intros Hc. induction s as [|x s IH]; [reflexivity|].
  simpl lstrip. destruct (isspace x) eqn:Hx; [|reflexivity].
  rewrite IH. simpl.
  destruct (chr_eqb c x) eqn:E; [|reflexivity].
  apply chr_eqb_eq in E. congruence.
Qed.

Lemma contains_rev p s : contains (rev p) (rev s) = contains p s.
Proof.
  assert (H : forall p s, contains p s = true ->
                          contains (rev p) (rev s) = true).
  { clear. intros p s Hc. apply contains_iff in Hc as (a & b & ->).
    apply contains_iff. exists (rev b), (rev a).
    now rewrite !rev_app_distr, app_assoc. }
  destruct (contains p s) eqn:E.
  - now apply H.
  - destruct (contains (rev p) (rev s)) eqn:E'; [|reflexivity].
    apply H in E'. rewrite !rev_involutive in E'. congruence.
Qed.

Lemma contains_rstrip c p s :
  isspace c = false ->
  contains (p ++ [c]) (rstrip s) = contains (p ++ [c]) s.
Proof.
  intros Hc. unfold rstrip.
  rewrite <- (contains_rev (p ++ [c]) (rev (lstrip (rev s)))).
  rewrite rev_involutive, rev_app_distr. simpl.
  rewrite contains_lstrip by assumption.
  rewrite <- (contains_rev (p ++ [c]) s), rev_app_distr. reflexivity.
Qed.

Lemma contains_strip c p d s :
  isspace c = false -> isspace d = false ->
  contains (c :: p ++ [d]) (strip s) = contains (c :: p ++ [d]) s.
Proof.
  intros Hc Hd. unfold strip.
  change (c :: p ++ [d]) with ((c :: p) ++ [d]).
  rewrite (contains_rstrip d (c :: p) (lstrip s) Hd).
  now apply contains_lstrip.
Qed.

(** Splitting on a character: one more piece than there are separators,
    no piece holds the separator, and the pieces joined by the separator
    give the text back. *)
Lemma split_not_nil sep s : split sep s <> [].
Proof.
  destruct s as [|c s]; simpl; [discriminate|].
  destruct (chr_eqb c sep); [discriminate|].
  destruct (split sep s); discriminate.
Qed.

Lemma split_length sep s :
  length (split sep s) = S (count_occ N.eq_dec s sep).
Proof.
  induction s as [|c s IH]; [reflexivity|].
  simpl. unfold chr_eqb. destruct (N.eqb_spec c sep) as [->|Hne].
  - destruct (N.eq_dec sep sep); [|congruence]. simpl. now rewrite IH.
  - destruct (N.eq_dec c sep); [congruence|].
    destruct (split sep s) eqn:E; simpl in *; lia.
Qed.

Lemma split_join sep s : join_with sep (split sep s) = s.
Proof.
  induction s as [|c s IH]; [reflexivity|].
  simpl. unfold chr_eqb. destruct (N.eqb_spec c sep) as [->|Hne].
  - pose proof (split_not_nil sep s).
    simpl. destruct (split sep s) eqn:E; [congruence|].
    now rewrite IH.
  - pose proof (split_not_nil sep s).
    destruct (split sep s) as [|piece pieces] eqn:E; [congruence|].
    simpl in *. destruct pieces; simpl; now rewrite <- IH.
Qed.

Lemma split_pieces sep s piece :
  In piece (split sep s) -> ~ In sep piece.
Proof.
  revert piece. induction s as [|c s IH]; intros piece H.
  - simpl in H. destruct H as [<-|[]]. intros [].
  - simpl in H. unfold chr_eqb in H.
    destruct (N.eqb_spec c sep) as [->|Hne].
    + destruct H as [<-|H]; [intros []|now apply IH].
    + destruct (split sep s) as [|p ps] eqn:E.
      * destruct H as [<-|[]]. intros [?|[]]. congruence.
      * destruct H as [<-|H].
        -- intros [?|Hin]; [congruence|]. apply (IH p); simpl; auto.
        -- apply IH. simpl. auto.
Qed.

(** ** Facts about the messages *)

Lemma digits_inj d d' : digits d = digits d' -> d = d'.
Proof.
  revert d'. induction d as [|d IH|d IH|d IH|d IH|d IH|d IH|d IH|d IH|d IH|d IH];
    intros [|e|e|e|e|e|e|e|e|e|e] H; simpl in H;
    try discriminate; try reflexivity;
    injection H as H; f_equal; now apply IH.
Qed.

Lemma format_int_inj i k : format_int i = format_int k -> i = k.
Proof.
  intros H. apply digits_inj in H. now apply DecimalNat.Unsigned.to_uint_inj.
Qed.

Lemma digits_no_colon d : ~ In COLON (digits d).
Proof.
  induction d; simpl; intros H; try (destruct H as [H|H]; [discriminate|]);
    auto.
Qed.

Lemma app_sep_inj (c : char) xs ys r1 r2 :
  ~ In c xs -> ~ In c ys ->
  xs ++ c :: r1 = ys ++ c :: r2 -> xs = ys /\ r1 = r2.
Proof.
  revert ys. induction xs as [|x xs IH]; intros [|y ys] Hx Hy H; simpl in *.
  - injection H as H. auto.
  - injection H as H1 H2. subst. exfalso. apply Hy. auto.
  - injection H as H1 H2. subst. exfalso. apply Hx. auto.
  - injection H as H1 H2. subst y.
    destruct (IH ys) as [-> ->]; auto.
Qed.

Lemma line_message_inj i k t1 t2 :
  lit "Line " ++ format_int i ++ COLON :: t1
  = lit "Line " ++ format_int k ++ COLON :: t2 ->
  i = k /\ t1 = t2.
Proof.
  intros H. apply app_inv_head in H.
  apply app_sep_inj in H; try apply digits_no_colon.
  destruct H as [H ->]. split; [now apply format_int_inj|reflexivity].
Qed.

Lemma constraint_error_inj i k :
  constraint_error i = constraint_error k -> i = k.
Proof. intros H. now apply line_message_inj in H. Qed.

Lemma do_block_error_inj i k :
  do_block_error i = do_block_error k -> i = k.
Proof. intros H. now apply line_message_inj in H. Qed.

Lemma function_warning_inj i k :
  function_warning i = function_warning k -> i = k.
Proof. intros H. now apply line_message_inj in H. Qed.

Lemma constraint_not_do_block i k : constraint_error i <> do_block_error k.
Proof.
  intros H. apply line_message_inj in H. destruct H as [_ H]. discriminate.
Qed.

(** ** The forward scan *)

Section BlockScan.

Variable lines : list str.

Lemma scan_step_running j j' :
  scan_step lines j = Running j' -> j' = j + 1 /\ j < length lines.
Proof.
  unfold scan_step. destruct (Nat.ltb_spec j (length lines)) as [Hlt|Hge].
  - destruct (endswith _ _); intros H; inversion H; auto.
  - discriminate.
Qed.

Lemma block_scan_step j :
  block_scan lines j =
  match scan_step lines j with
  | Exited o => o
  | Running j' => block_scan lines j'
  end.
Proof.
  funelim (block_scan lines j);
    match goal with E : scan_step _ _ = _ |- _ => now rewrite E end.
Qed.

(** With more fuel than lines left, the bounded loop exits, with the
    outcome of [block_scan]. *)
Lemma scan_fuel_enough fuel j :
  length lines - j < fuel ->
  scan_fuel fuel lines j = Some (block_scan lines j).
Proof.
  revert j. induction fuel as [|fuel IH]; intros j Hlt; [lia|].
  simpl. rewrite (block_scan_step j).
  destruct (scan_step lines j) as [j'|o] eqn:E; [|reflexivity].
  apply scan_step_running in E. apply IH. lia.
Qed.

Lemma block_scan_exhausted j :
  block_scan lines j = Exhausted <->
  forall m, j <= m < length lines -> closes lines m = false.
Proof.
  remember (length lines - j) as n eqn:Hn. revert j Hn.
  induction n as [n IH] using lt_wf_ind. intros j Hn.
  rewrite block_scan_step. unfold scan_step.
  destruct (Nat.ltb_spec j (length lines)) as [Hlt|Hge].
  - fold (closes lines j). destruct (closes lines j) eqn:Hc.
    + split; [discriminate|]. intros H.
      rewrite (H j) in Hc; [discriminate|lia].
    + rewrite (IH (length lines - (j + 1))) by lia.
      split; intros H m Hm.
      * destruct (Nat.eq_dec m j) as [->|Hne]; [assumption|].
        apply H. lia.
      * apply H. lia.
  - split; [|reflexivity]. intros _ m Hm. lia.
Qed.

Lemma block_scan_break j :
  block_scan lines j = Break <->
  exists m, j <= m < length lines /\ closes lines m = true.
Proof.
  split.
  - intros H. destruct (existsb (fun m => (j <=? m) && closes lines m)
                          (seq 0 (length lines))) eqn:E.
    + apply existsb_exists in E as (m & Hin & Hm).
      apply in_seq in Hin. apply andb_true_iff in Hm as [Hjm Hc].
      apply Nat.leb_le in Hjm. exists m. split; [lia|assumption].
    + assert (Hex : block_scan lines j = Exhausted).
      { apply block_scan_exhausted. intros m Hm.
        destruct (closes lines m) eqn:Hc; [|reflexivity].
        assert (Ht : existsb (fun m => (j <=? m) && closes lines m)
                       (seq 0 (length lines)) = true).
        { apply existsb_exists. exists m. split.
          - apply in_seq. lia.
          - rewrite Hc, andb_true_r. apply Nat.leb_le. lia. }
        congruence. }
      congruence.
  - intros (m & Hm & Hc). destruct (block_scan lines j) eqn:E; [reflexivity|].
    rewrite block_scan_exhausted in E. rewrite (E m Hm) in Hc. discriminate.
Qed.

End BlockScan.

(** ** The findings of one line, and of the whole scan *)

Lemma slice_window lines i :
  1 <= i -> slice lines (i - 1) (i + 10) = window lines i.
Proof.
  intros Hi. unfold slice, window.
  replace (i + 10 - (i - 1)) with 11 by lia. reflexivity.
Qed.

Lemma check_line_spec lines i raw e w :
  1 <= i ->
  check_line lines i raw (e, w)
  = (e ++ line_errors lines i raw, w ++ line_warnings lines i raw).
Proof.
  intros Hi. unfold check_line, line_errors, line_warnings.
  rewrite (slice_window lines i Hi).
  fold (skipped (strip raw)). fold (opens_block (strip raw)).
  destruct (skipped (strip raw)); [now rewrite !app_nil_r|].
  destruct (contains ADD_CONSTRAINT (strip raw));
    destruct (opens_block (strip raw));
    destruct (block_scan lines i);
    destruct (contains CREATE_FUNCTION (strip raw));
    destruct (contains DOLLARS (join (window lines i)));
    simpl; rewrite ?app_nil_r, <- ?app_assoc; reflexivity.
Qed.

Lemma for_lines_spec lines i rest e w :
  1 <= i ->
  for_lines lines i rest (e, w)
  = (e ++ errors_from lines i rest, w ++ warnings_from lines i rest).
Proof.
  revert i e w. induction rest as [|raw rest IH]; intros i e w Hi.
  - simpl. now rewrite !app_nil_r.
  - cbn [for_lines errors_from warnings_from].
    rewrite check_line_spec by assumption.
    rewrite IH by lia. now rewrite <- !app_assoc.
Qed.

Lemma validate_spec sql_content :
  validate_sql_syntax sql_content
  = (errors_from (split NEWLINE sql_content) 1 (split NEWLINE sql_content),
     warnings_from (split NEWLINE sql_content) 1 (split NEWLINE sql_content)).
Proof.
  unfold validate_sql_syntax. now rewrite for_lines_spec.
Qed.

Lemma in_errors_from lines i rest x :
  In x (errors_from lines i rest) <->
  exists k raw, nth_error rest k = Some raw
                /\ In x (line_errors lines (i + k) raw).
Proof.
  revert i. induction rest as [|raw rest IH]; intros i; simpl.
  - split; [intros []|]. intros (k & r & H & _). now destruct k.
  - rewrite in_app_iff, IH. split.
    + intros [H|(k & r & Hk & H)].
      * exists 0, raw. rewrite Nat.add_0_r. auto.
      * exists (S k), r. rewrite Nat.add_succ_r. auto.
    + intros ([|k] & r & Hk & H); simpl in Hk.
      * injection Hk as <-. rewrite Nat.add_0_r in H. auto.
      * right. exists k, r. rewrite Nat.add_succ_r in H. auto.
Qed.

Lemma in_warnings_from lines i rest x :
  In x (warnings_from lines i rest) <->
  exists k raw, nth_error rest k = Some raw
                /\ In x (line_warnings lines (i + k) raw).
Proof.
  revert i. induction rest as [|raw rest IH]; intros i; simpl.
  - split; [intros []|]. intros (k & r & H & _). now destruct k.
  - rewrite in_app_iff, IH. split.
    + intros [H|(k & r & Hk & H)].
      * exists 0, raw. rewrite Nat.add_0_r. auto.
      * exists (S k), r. rewrite Nat.add_succ_r. auto.
    + intros ([|k] & r & Hk & H); simpl in Hk.
      * injection Hk as <-. rewrite Nat.add_0_r in H. auto.
      * right. exists k, r. rewrite Nat.add_succ_r in H. auto.
Qed.

(** ** Substrings of the document *)

Lemma lstrip_suffix s : exists a, s = a ++ lstrip s.
Proof.
  induction s as [|c s [a Ha]]; [now exists []|].
  simpl. destruct (isspace c).
  - exists (c :: a). simpl. now rewrite <- Ha.
  - now exists [].
Qed.

Lemma rstrip_prefix s : exists b, s = rstrip s ++ b.
Proof.
  unfold rstrip. destruct (lstrip_suffix (rev s)) as [a Ha].
  exists (rev a). rewrite <- rev_app_distr, <- Ha. now rewrite rev_involutive.
Qed.

Lemma strip_substring s : exists a b, s = a ++ strip s ++ b.
Proof.
  unfold strip. destruct (lstrip_suffix s) as [a Ha].
  destruct (rstrip_prefix (lstrip s)) as [b Hb].
  exists a, b. now rewrite <- Hb.
Qed.

Lemma split_head_prefix sep s : exists b, s = hd [] (split sep s) ++ b.
Proof.
  induction s as [|c s [b Hb]]; [now exists []|].
  simpl. destruct (chr_eqb c sep).
  - now exists (c :: s).
  - destruct (split sep s) as [|p ps]; simpl in *.
    + now exists s.
    + exists b. now rewrite <- Hb.
Qed.

Lemma split_piece_substring sep s piece :
  In piece (split sep s) -> exists a b, s = a ++ piece ++ b.
Proof.
  revert piece. induction s as [|c s IH]; intros piece H.
  - simpl in H. destruct H as [<-|[]]. now exists [], [].
  - simpl in H. destruct (chr_eqb c sep).
    + destruct H as [<-|H].
      * now exists [], (c :: s).
      * destruct (IH _ H) as (a & b & ->). now exists (c :: a), b.
    + destruct (split_head_prefix sep s) as [b Hb].
      destruct (split sep s) as [|p ps].
      * destruct H as [<-|[]]. now exists [], s.
      * destruct H as [<-|H].
        -- exists [], b. simpl in *. now rewrite <- Hb.
        -- destruct (IH piece) as (a & b' & ->); [now right|].
           now exists (c :: a), b'.
Qed.

Lemma contains_trans p t s :
  contains p t = true -> (exists a b, s = a ++ t ++ b) ->
  contains p s = true.
Proof.
  intros Hp (a & b & ->). apply contains_iff in Hp as (a' & b' & ->).
  apply contains_iff. exists (a ++ a'), (b' ++ b).
  now rewrite <- !app_assoc.
Qed.

(** What occurs in the stripped form of a line of the document occurs in
    the document. *)
Lemma contains_line_document p sql_content k raw :
  nth_error (split NEWLINE sql_content) k = Some raw ->
  contains p (strip raw) = true ->
  contains p sql_content = true.
Proof.
  intros Hk Hp. apply nth_error_In in Hk.
  apply (contains_trans p raw).
  - apply (contains_trans p (strip raw)); [assumption|].
    apply strip_substring.
  - now apply split_piece_substring with (sep := NEWLINE).
Qed.

(** ** Counting one message among the errors *)

Lemma opener_not_skipped line :
  startswith line DO_OPEN = true -> skipped line = false.
Proof.
  intros H. apply startswith_iff in H as [q ->]. reflexivity.
Qed.

Lemma in_line_errors lines i raw x :
  In x (line_errors lines i raw) ->
  skipped (strip raw) = false
  /\ ((x = constraint_error i /\ contains ADD_CONSTRAINT (strip raw) = true)
      \/ (x = do_block_error i /\ opens_block (strip raw) = true
          /\ block_scan lines i = Exhausted)).
Proof.
  unfold line_errors. destruct (skipped (strip raw)); [intros []|].
  intros H. split; [reflexivity|]. apply in_app_or in H as [H|H].
  - destruct (contains ADD_CONSTRAINT (strip raw)); [|destruct H].
    destruct H as [<-|[]]. auto.
  - destruct (opens_block (strip raw)); [|destruct H].
    destruct (block_scan lines i); [destruct H|].
    destruct H as [<-|[]]. auto.
Qed.

Lemma in_line_warnings lines i raw x :
  In x (line_warnings lines i raw) ->
  skipped (strip raw) = false
  /\ x = function_warning i
  /\ contains CREATE_FUNCTION (strip raw) = true
  /\ contains DOLLARS (join (window lines i)) = false.
Proof.
  unfold line_warnings. destruct (skipped (strip raw)); [intros []|].
  destruct (contains CREATE_FUNCTION (strip raw)); [|intros []].
  destruct (contains DOLLARS (join (window lines i))); [intros []|].
  intros [<-|[]]. auto.
Qed.

Lemma count_line_errors_other lines i raw n :
  i <> n ->
  count_occ str_eq_dec (line_errors lines i raw) (do_block_error n) = 0.
Proof.
  intros Hne. apply count_occ_not_In. intros Hin.
  apply in_line_errors in Hin as [_ [[H _]|[H _]]].
  - symmetry in H. now apply constraint_not_do_block in H.
  - apply do_block_error_inj in H. congruence.
Qed.

Lemma count_line_errors_hit lines i raw :
  skipped (strip raw) = false ->
  opens_block (strip raw) = true ->
  block_scan lines i = Exhausted ->
  count_occ str_eq_dec (line_errors lines i raw) (do_block_error i) = 1.
Proof.
  intros Hs Ho Hb. unfold line_errors. rewrite Hs, Ho, Hb.
  rewrite count_occ_app.
  replace (count_occ str_eq_dec
             (if contains ADD_CONSTRAINT (strip raw)
              then [constraint_error i] else []) (do_block_error i))
    with 0.
  - cbn [count_occ]. destruct (str_eq_dec _ _); [reflexivity|congruence].
  - destruct (contains ADD_CONSTRAINT (strip raw)); [|reflexivity].
    cbn [count_occ]. destruct (str_eq_dec _ _) as [E|E]; [|reflexivity].
    now apply constraint_not_do_block in E.
Qed.

Lemma count_errors_from_later lines i rest n :
  n < i ->
  count_occ str_eq_dec (errors_from lines i rest) (do_block_error n) = 0.
Proof.
  revert i. induction rest as [|raw rest IH]; intros i Hlt; [reflexivity|].
  simpl. rewrite count_occ_app, count_line_errors_other by lia.
  apply IH. lia.
Qed.

Lemma count_errors_from_hit lines i rest k raw :
  nth_error rest k = Some raw ->
  skipped (strip raw) = false ->
  opens_block (strip raw) = true ->
  block_scan lines (i + k) = Exhausted ->
  count_occ str_eq_dec (errors_from lines i rest) (do_block_error (i + k))
  = 1.
Proof.
  revert i k. induction rest as [|raw0 rest IH]; intros i k Hk Hs Ho Hb.
  - now destruct k.
  - simpl. rewrite count_occ_app. destruct k as [|k]; simpl in Hk.
    + injection Hk as Hk. subst raw0. rewrite Nat.add_0_r in *.
      rewrite count_line_errors_hit by assumption.
      rewrite count_errors_from_later by lia. reflexivity.
    + rewrite count_line_errors_other by lia.
      rewrite Nat.add_succ_r in *. change (S (i + k)) with (S i + k) in *.
      now apply IH.
Qed.

Lemma exit_code_spec sql_content :
  exit_code sql_content
  = match fst (validate_sql_syntax sql_content) with
    | [] => 0
    | _ :: _ => 1
    end.
Proof.
  unfold exit_code, main.
  destruct (validate_sql_syntax sql_content) as [errors warnings].
  reflexivity.
Qed.

(** ** The unclosed-block check *)

(** C1.  On the two-line document of scenario 4 the opener on line 1 does
    not end with the closing tag and line 2, the last line of the document,
    does; the scan stops before the last line, so an unclosed-block error
    is emitted for line 1 and the exit status is 1.  The same text followed
    by a newline has an empty last line, and no error. *)
Theorem scenario4_last_line_not_scanned :
  split NEWLINE scenario4 = [lit "DO $$"; lit "BEGIN NULL; END $$;"]
  /\ startswith (strip (lit "DO $$")) DO_OPEN = true
  /\ endswith (strip (lit "DO $$")) DO_CLOSE = false
  /\ endswith (strip (lit "BEGIN NULL; END $$;")) DO_CLOSE = true
  /\ validate_sql_syntax scenario4
     = ([lit "Line 1: DO block not properly closed"], [])
  /\ exit_code scenario4 = 1
  /\ validate_sql_syntax (scenario4 ++ [NEWLINE]) = ([], []).
Proof. vm_compute. repeat split; reflexivity. Qed.

(** The unclosed-block error of a line is emitted exactly when the line
    opens a block and none of the lines from it up to, and excluding, the
    last line of the document closes one. *)
Lemma do_block_error_iff sql_content k raw :
  nth_error (split NEWLINE sql_content) k = Some raw ->
  (In (do_block_error (S k)) (fst (validate_sql_syntax sql_content)) <->
   opens_block (strip raw) = true
   /\ forall m raw',
        k <= m -> S m < length (split NEWLINE sql_content) ->
        nth_error (split NEWLINE sql_content) m = Some raw' ->
        endswith (strip raw') DO_CLOSE = false).
Proof.
  intros Hk. rewrite validate_spec. simpl fst. rewrite in_errors_from.
  set (lines := split NEWLINE sql_content) in *.
  assert (Hscan : block_scan lines (S k) = Exhausted <->
                  forall m raw', k <= m -> S m < length lines ->
                    nth_error lines m = Some raw' ->
                    endswith (strip raw') DO_CLOSE = false).
  { rewrite block_scan_exhausted. unfold closes. split.
    - intros H m raw' Hkm Hm Hnth.
      specialize (H (S m)). simpl in H. rewrite Nat.sub_0_r in H.
      rewrite (nth_error_nth _ _ _ Hnth) in H. apply H. lia.
    - intros H m Hm. destruct m as [|m]; [lia|].
      simpl. rewrite Nat.sub_0_r. apply (H m); try lia.
      apply nth_error_nth'. lia. }
  split.
  - intros (k' & raw' & Hk' & Hin).
    apply in_line_errors in Hin as [_ [[H _]|(H & Ho & Hb)]].
    + symmetry in H. now apply constraint_not_do_block in H.
    + apply do_block_error_inj in H. simpl in H. injection H as ->.
      rewrite Hk in Hk'. injection Hk' as <-.
      split; [assumption|]. now apply Hscan.
  - intros [Ho Hb]. exists k, raw. split; [assumption|].
    simpl. unfold line_errors.
    assert (Hs : skipped (strip raw) = false).
    { apply opener_not_skipped. unfold opens_block in Ho.
      now apply andb_true_iff in Ho as [Ho _]. }
    rewrite Hs, Ho. apply Hscan in Hb. rewrite Hb.
    apply in_or_app. right. now left.
Qed.

(** C2.  When a stripped line begins with the opener and no line from it
    through the end of the document has a stripped form that ends with the
    closing tag, the errors hold exactly one unclosed-block message with
    the 1-based number of that line.  The four-line document of scenario 3
    gives that one error, at line 1, and exit status 1. *)
Theorem unclosed_block_reported_once :
  (forall sql_content k raw,
     nth_error (split NEWLINE sql_content) k = Some raw ->
     startswith (strip raw) DO_OPEN = true ->
     (forall m raw',
        k <= m -> nth_error (split NEWLINE sql_content) m = Some raw' ->
        endswith (strip raw') DO_CLOSE = false) ->
     count_occ str_eq_dec (fst (validate_sql_syntax sql_content))
       (do_block_error (S k)) = 1)
  /\ split NEWLINE scenario3
     = [lit "DO $$"; lit "BEGIN"; lit "  NULL;"; lit "END"]
  /\ validate_sql_syntax scenario3
     = ([lit "Line 1: DO block not properly closed"], [])
  /\ exit_code scenario3 = 1.
Proof.
  split; [|vm_compute; repeat split; reflexivity].
  intros sql_content k raw Hk Hopen Hnone.
  rewrite validate_spec. simpl fst.
  apply (count_errors_from_hit _ 1 _ k raw Hk).
  - now apply opener_not_skipped.
  - unfold opens_block. rewrite Hopen, (Hnone k raw (le_n k) Hk). reflexivity.
  - apply block_scan_exhausted. intros m Hm. unfold closes.
    apply (Hnone (m - 1)); [simpl in Hm; lia|].
    apply nth_error_nth'. lia.
Qed.

Lemma unclosed_block_reported_once_witness :
  (nth_error (split NEWLINE scenario3) 0 = Some (lit "DO $$")
   /\ startswith (strip (lit "DO $$")) DO_OPEN = true
   /\ (forall m raw',
         0 <= m -> nth_error (split NEWLINE scenario3) m = Some raw' ->
         endswith (strip raw') DO_CLOSE = false))
  /\ count_occ str_eq_dec (fst (validate_sql_syntax scenario3))
       (do_block_error 1) = 1.
Proof.
  assert (Hnone : forall m raw',
             0 <= m -> nth_error (split NEWLINE scenario3) m = Some raw' ->
             endswith (strip raw') DO_CLOSE = false).
  { intros m raw' _ H.
    destruct m as [|[|[|[|m]]]]; vm_compute in H;
      try (injection H as <-; vm_compute; reflexivity).
    destruct m; discriminate. }
  split.
  - split; [vm_compute; reflexivity|].
    split; [vm_compute; reflexivity|exact Hnone].
  - apply (proj1 unclosed_block_reported_once scenario3 0 (lit "DO $$")).
    + vm_compute. reflexivity.
    + vm_compute. reflexivity.
    + exact Hnone.
Defined.

(** ** The constraint-clause check *)

(** C3.  A line whose stripped form is not empty, does not start with the
    comment marker and contains the constraint clause gets an error with
    its 1-based number, saying that the clause is not valid syntax.  The
    one-line document of scenario 2 gives exactly that error, at line 1,
    and exit status 1. *)
Theorem constraint_clause_reported :
  (forall sql_content k raw,
     nth_error (split NEWLINE sql_content) k = Some raw ->
     strip raw <> [] ->
     startswith (strip raw) COMMENT = false ->
     contains ADD_CONSTRAINT (strip raw) = true ->
     In (constraint_error (S k)) (fst (validate_sql_syntax sql_content)))
  /\ validate_sql_syntax scenario2
     = ([lit "Line 1: 'ADD CONSTRAINT IF NOT EXISTS' is not valid PostgreSQL syntax"],
        [])
  /\ exit_code scenario2 = 1.
Proof.
  split; [|vm_compute; repeat split; reflexivity].
  intros sql_content k raw Hk Hne Hnc Hadd.
  rewrite validate_spec. simpl fst. apply in_errors_from.
  exists k, raw. split; [assumption|].
  simpl. unfold line_errors, skipped. rewrite Hnc, Hadd.
  destruct (strip raw); [congruence|]. simpl. now left.
Qed.

Lemma constraint_clause_reported_witness :
  (nth_error (split NEWLINE scenario2) 0 = Some scenario2
   /\ strip scenario2 <> []
   /\ startswith (strip scenario2) COMMENT = false
   /\ contains ADD_CONSTRAINT (strip scenario2) = true)
  /\ In (constraint_error 1) (fst (validate_sql_syntax scenario2)).
Proof.
  split.
  - repeat split; try (vm_compute; reflexivity). vm_compute. discriminate.
  - apply (proj1 constraint_clause_reported scenario2 0 scenario2).
    + vm_compute. reflexivity.
    + vm_compute. discriminate.
    + vm_compute. reflexivity.
    + vm_compute. reflexivity.
Defined.

(** ** The function-delimiter heuristic *)

(** The three patterns neither begin nor end with whitespace, so each
    occurs in a line exactly when it occurs in its stripped form. *)
Lemma constraint_strip raw :
  contains ADD_CONSTRAINT (strip raw) = contains ADD_CONSTRAINT raw.
Proof.
  exact (contains_strip 65%N (lit "DD CONSTRAINT IF NOT EXIST") 83%N raw
           eq_refl eq_refl).
Qed.




(** ** Documents without triggers *)

Lemma skipped_false line :
  skipped line = false -> line <> [] /\ startswith line COMMENT = false.
Proof.
  unfold skipped. destruct line; [discriminate|].
  intros H. split; [discriminate|exact H].
Qed.

Lemma not_skipped line :
  line <> [] -> startswith line COMMENT = false -> skipped line = false.
Proof.
  unfold skipped. destruct line; [congruence|]. now intros _ ->.
Qed.

Lemma no_element_nil {A} (l : list A) : (forall x, ~ In x l) -> l = [].
Proof.
  destruct l as [|a l]; [reflexivity|]. intros H. destruct (H a). now left.
Qed.

(** C5.  When no line that is neither blank nor a comment contains the
    constraint clause, begins with the block opener or contains
    [CREATE OR REPLACE FUNCTION], both results are empty.  This holds in
    particular when the three patterns occur nowhere in the document, when
    they occur on comment lines only, and for the empty document. *)
Theorem no_trigger_no_finding :
  (forall sql_content,
     (forall k raw,
        nth_error (split NEWLINE sql_content) k = Some raw ->
        strip raw <> [] ->
        startswith (strip raw) COMMENT = false ->
        contains ADD_CONSTRAINT (strip raw) = false
        /\ startswith (strip raw) DO_OPEN = false
        /\ contains CREATE_FUNCTION (strip raw) = false) ->
     validate_sql_syntax sql_content = ([], []))
  /\ (forall sql_content,
        contains ADD_CONSTRAINT sql_content = false ->
        contains DO_OPEN sql_content = false ->
        contains CREATE_FUNCTION sql_content = false ->
        validate_sql_syntax sql_content = ([], []))
  /\ validate_sql_syntax
       (unlines ["-- ADD CONSTRAINT IF NOT EXISTS"; "   ";
                 "  -- DO $$"; "-- CREATE OR REPLACE FUNCTION f()"]%string)
     = ([], [])
  /\ validate_sql_syntax scenario6 = ([], []).
Proof.
  assert (Hgen : forall sql_content,
     (forall k raw,
        nth_error (split NEWLINE sql_content) k = Some raw ->
        strip raw <> [] ->
        startswith (strip raw) COMMENT = false ->
        contains ADD_CONSTRAINT (strip raw) = false
        /\ startswith (strip raw) DO_OPEN = false
        /\ contains CREATE_FUNCTION (strip raw) = false) ->
     validate_sql_syntax sql_content = ([], [])).
  { intros sql_content H. rewrite validate_spec. f_equal.
    - apply no_element_nil. intros x Hin.
      apply in_errors_from in Hin as (k & raw & Hk & Hin).
      apply in_line_errors in Hin as [Hs Hin].
      apply skipped_false in Hs as [Hne Hnc].
      destruct (H k raw Hk Hne Hnc) as (Ha & Hd & _).
      destruct Hin as [[_ Hc]|(_ & Ho & _)]; [congruence|].
      unfold opens_block in Ho. rewrite Hd in Ho. discriminate.
    - apply no_element_nil. intros x Hin.
      apply in_warnings_from in Hin as (k & raw & Hk & Hin).
      apply in_line_warnings in Hin as (Hs & _ & Hc & _).
      apply skipped_false in Hs as [Hne Hnc].
      destruct (H k raw Hk Hne Hnc) as (_ & _ & Hf). congruence. }
  split; [exact Hgen|].
  split; [|vm_compute; split; reflexivity].
  intros sql_content Ha Hd Hf. apply Hgen. intros k raw Hk _ _.
  repeat split.
  - destruct (contains ADD_CONSTRAINT (strip raw)) eqn:E; [|reflexivity].
    apply (contains_line_document _ _ _ _ Hk) in E. congruence.
  - destruct (startswith (strip raw) DO_OPEN) eqn:E; [|reflexivity].
    apply contains_startswith in E.
    apply (contains_line_document _ _ _ _ Hk) in E. congruence.
  - destruct (contains CREATE_FUNCTION (strip raw)) eqn:E; [|reflexivity].
    apply (contains_line_document _ _ _ _ Hk) in E. congruence.
Qed.

Lemma no_trigger_no_finding_witness :
  (forall k raw,
     nth_error (split NEWLINE commented_document) k = Some raw ->
     strip raw <> [] ->
     startswith (strip raw) COMMENT = false ->
     contains ADD_CONSTRAINT (strip raw) = false
     /\ startswith (strip raw) DO_OPEN = false
     /\ contains CREATE_FUNCTION (strip raw) = false)
  /\ validate_sql_syntax commented_document = ([], []).
Proof.
  assert (H : forall k raw,
     nth_error (split NEWLINE commented_document) k = Some raw ->
     strip raw <> [] ->
     startswith (strip raw) COMMENT = false ->
     contains ADD_CONSTRAINT (strip raw) = false
     /\ startswith (strip raw) DO_OPEN = false
     /\ contains CREATE_FUNCTION (strip raw) = false).
  { intros k raw Hk Hne Hnc.
    destruct k as [|[|[|k]]]; vm_compute in Hk.
    - injection Hk as <-. vm_compute in Hnc. discriminate.
    - injection Hk as <-. vm_compute in Hne. congruence.
    - injection Hk as <-. vm_compute. repeat split.
    - destruct k; discriminate. }
  split; [exact H|].
  exact (proj1 no_trigger_no_finding commented_document H).
Defined.

(** ** Line numbers *)

(** C6.  Every finding carries the 1-based position, among the lines
    obtained by splitting the document on newlines, of the line that
    triggered it: the finding is [Line n: ...] where line [n], counted
    with the blank and comment lines before it, is neither blank nor a
    comment and meets the condition of the check that produced the
    message. *)
Theorem finding_line_number :
  forall sql_content finding,
    In finding (fst (validate_sql_syntax sql_content)
                ++ snd (validate_sql_syntax sql_content)) ->
    exists k raw,
      nth_error (split NEWLINE sql_content) k = Some raw
      /\ strip raw <> []
      /\ startswith (strip raw) COMMENT = false
      /\ (exists tail,
            finding = lit "Line " ++ format_int (S k) ++ COLON :: tail)
      /\ ((finding = constraint_error (S k)
           /\ contains ADD_CONSTRAINT (strip raw) = true)
          \/ (finding = do_block_error (S k)
              /\ startswith (strip raw) DO_OPEN = true
              /\ endswith (strip raw) DO_CLOSE = false)
          \/ (finding = function_warning (S k)
              /\ contains CREATE_FUNCTION (strip raw) = true)).
Proof.
  intros sql_content finding Hin. rewrite validate_spec in Hin.
  simpl fst in Hin. simpl snd in Hin. apply in_app_or in Hin as [Hin|Hin].
  - apply in_errors_from in Hin as (k & raw & Hk & Hin).
    change (1 + k) with (S k) in Hin.
    apply in_line_errors in Hin as [Hs Hin].
    apply skipped_false in Hs as [Hne Hnc].
    exists k, raw. repeat (split; [assumption|]).
    destruct Hin as [[-> Hc]|(-> & Ho & _)].
    + split; [eexists; reflexivity|]. left. auto.
    + split; [eexists; reflexivity|]. right; left.
      unfold opens_block in Ho. apply andb_true_iff in Ho as [Ho Hc].
      apply negb_true_iff in Hc. auto.
  - apply in_warnings_from in Hin as (k & raw & Hk & Hin).
    change (1 + k) with (S k) in Hin.
    apply in_line_warnings in Hin as (Hs & -> & Hc & _).
    apply skipped_false in Hs as [Hne Hnc].
    exists k, raw. repeat (split; [assumption|]).
    split; [eexists; reflexivity|]. right; right. auto.
Qed.

Lemma finding_line_number_witness :
  In (lit "Line 4: 'ADD CONSTRAINT IF NOT EXISTS' is not valid PostgreSQL syntax")
     (fst (validate_sql_syntax numbered_document)
      ++ snd (validate_sql_syntax numbered_document))
  /\ exists k raw,
      nth_error (split NEWLINE numbered_document) k = Some raw
      /\ strip raw <> []
      /\ startswith (strip raw) COMMENT = false
      /\ (exists tail,
            lit "Line 4: 'ADD CONSTRAINT IF NOT EXISTS' is not valid PostgreSQL syntax"
            = lit "Line " ++ format_int (S k) ++ COLON :: tail)
      /\ ((lit "Line 4: 'ADD CONSTRAINT IF NOT EXISTS' is not valid PostgreSQL syntax"
           = constraint_error (S k)
           /\ contains ADD_CONSTRAINT (strip raw) = true)
          \/ (lit "Line 4: 'ADD CONSTRAINT IF NOT EXISTS' is not valid PostgreSQL syntax"
              = do_block_error (S k)
              /\ startswith (strip raw) DO_OPEN = true
              /\ endswith (strip raw) DO_CLOSE = false)
          \/ (lit "Line 4: 'ADD CONSTRAINT IF NOT EXISTS' is not valid PostgreSQL syntax"
              = function_warning (S k)
              /\ contains CREATE_FUNCTION (strip raw) = true)).
Proof.
  split.
  - vm_compute. left. reflexivity.
  - apply (finding_line_number numbered_document).
    vm_compute. left. reflexivity.
Defined.

(** ** Exit status *)

Lemma not_found_line_distinct sql_content :
  ~ In not_found_line (fst (main (Opened sql_content))).
Proof.
  unfold main.
  destruct (validate_sql_syntax sql_content) as [errors warnings].
  cbn [fst]. intros Hin.
  destruct errors as [|error errors]; destruct warnings as [|warning warnings];
    repeat (apply in_app_or in Hin; destruct Hin as [Hin|Hin]);
    try (apply in_map_iff in Hin as (x & Hx & _); discriminate);
    repeat (destruct Hin as [Hin|Hin]; [discriminate|]);
    destruct Hin.
Qed.

(** C7.  The exit status is 0 exactly when the errors are empty, whatever
    the warnings; it is 1 when there is an error, and 1 whenever opening or
    reading the file raises an exception.  When the file is not found the
    output is one message, which no run on an opened file prints, and
    nothing of a validation report; the other exceptions leave [main]
    uncaught, with nothing printed. *)
Theorem exit_status :
  (forall sql_content,
     process_status (snd (main (Opened sql_content))) = 0
     <-> fst (validate_sql_syntax sql_content) = [])
  /\ (forall sql_content,
        fst (validate_sql_syntax sql_content) <> [] ->
        process_status (snd (main (Opened sql_content))) = 1)
  /\ (forall e, process_status (snd (main (Raised e))) = 1)
  /\ main (Raised FileNotFoundError)
     = ([CROSS_MARK ++ lit " SQL file not found"], Returned 1)
  /\ (forall e,
        e <> FileNotFoundError -> main (Raised e) = ([], Uncaught e))
  /\ (forall sql_content,
        ~ In (CROSS_MARK ++ lit " SQL file not found")
            (fst (main (Opened sql_content))))
  /\ (forall sql_content,
        In (lit "SQL Syntax Validation Results:")
           (fst (main (Opened sql_content)))).
Proof.
  split; [|split; [|split; [|split; [|split; [|split]]]]].
  - intros sql_content. fold (exit_code sql_content).
    rewrite exit_code_spec.
    destruct (fst (validate_sql_syntax sql_content)); [tauto|].
    split; discriminate.
  - intros sql_content Hne. fold (exit_code sql_content).
    rewrite exit_code_spec.
    destruct (fst (validate_sql_syntax sql_content)); [congruence|].
    reflexivity.
  - intros []; reflexivity.
  - reflexivity.
  - intros [] He; [congruence|reflexivity..].
  - exact not_found_line_distinct.
  - intros sql_content. unfold main.
    destruct (validate_sql_syntax sql_content) as [errors warnings].
    cbn [fst].
    destruct errors; destruct warnings;
      repeat (apply in_or_app; left); now left.
Qed.

Lemma exit_status_witness :
  (fst (validate_sql_syntax scenario2) <> []
   /\ PermissionError <> FileNotFoundError)
  /\ process_status (snd (main (Opened scenario2))) = 1
  /\ main (Raised PermissionError) = ([], Uncaught PermissionError).
Proof.
  split; [|split].
  - split; [vm_compute|]; discriminate.
  - apply (proj1 (proj2 exit_status) scenario2). vm_compute. discriminate.
  - apply (proj1 (proj2 (proj2 (proj2 (proj2 exit_status))))
             PermissionError).
    discriminate.
Defined.

(** ** Statement count *)

(** C8.  The report holds the line [File contains n SQL statements] where
    [n] is the number of pieces of the raw text split on [;]: the pieces
    hold no [;], joined by [;] they give the text back, and there is one
    more piece than there are [;] in the text.  The count is 2 for
    ["SELECT 1;"] and 1 for the empty text. *)
Theorem statement_count :
  (forall sql_content,
     In (NEWLINE :: BAR_CHART ++ lit " File contains "
         ++ format_int (length (split SEMICOLON sql_content))
         ++ lit " SQL statements")
        (fst (main (Opened sql_content))))
  /\ (forall sql_content,
        join_with SEMICOLON (split SEMICOLON sql_content) = sql_content
        /\ forallb (fun piece => negb (existsb (chr_eqb SEMICOLON) piece))
             (split SEMICOLON sql_content) = true
        /\ length (split SEMICOLON sql_content)
           = S (count_occ N.eq_dec sql_content SEMICOLON))
  /\ split SEMICOLON scenario1 = [lit "SELECT 1"; lit ""]
  /\ length (split SEMICOLON scenario1) = 2
  /\ length (split SEMICOLON scenario6) = 1
  /\ validate_sql_syntax scenario1 = ([], [])
  /\ exit_code scenario1 = 0
  /\ exit_code scenario6 = 0.
Proof.
  split; [|split; [|vm_compute; repeat split; reflexivity]].
  - intros sql_content. unfold main.
    destruct (validate_sql_syntax sql_content) as [errors warnings].
    cbn [fst]. apply in_or_app. left. apply in_or_app. right. now left.
  - intros sql_content. split; [apply split_join|].
    split; [|apply split_length].
    apply forallb_forall. intros piece Hin. apply negb_true_iff.
    destruct (existsb (chr_eqb SEMICOLON) piece) eqn:E; [|reflexivity].
    apply existsb_exists in E as (c & Hc & E). apply chr_eqb_eq in E.
    subst c. now apply split_pieces in Hin.
Qed.

(** ** Case sensitivity *)

(** C9.  The three checks compare characters exactly.  A line that does
    not contain the upper-case constraint clause gets no constraint error,
    a line whose stripped form does not begin with the upper-case opener
    gets no unclosed-block error, and a line that does not contain the
    upper-case [CREATE OR REPLACE FUNCTION] gets no delimiter warning,
    whether or not the lower-case spelling is there; the lower-case
    spellings do not match, and the lower-case scenarios have no finding. *)
Theorem patterns_case_sensitive :
  (forall sql_content k raw,
     nth_error (split NEWLINE sql_content) k = Some raw ->
     contains ADD_CONSTRAINT (strip raw) = false ->
     ~ In (constraint_error (S k)) (fst (validate_sql_syntax sql_content)))
  /\ (forall sql_content k raw,
        nth_error (split NEWLINE sql_content) k = Some raw ->
        startswith (strip raw) DO_OPEN = false ->
        ~ In (do_block_error (S k)) (fst (validate_sql_syntax sql_content)))
  /\ (forall sql_content k raw,
        nth_error (split NEWLINE sql_content) k = Some raw ->
        contains CREATE_FUNCTION (strip raw) = false ->
        ~ In (function_warning (S k))
            (snd (validate_sql_syntax sql_content)))
  /\ contains ADD_CONSTRAINT (lit "add constraint if not exists") = false
  /\ startswith (lit "do $$") DO_OPEN = false
  /\ contains CREATE_FUNCTION (lit "create or replace function") = false
  /\ validate_sql_syntax
       (lit "alter table t add constraint if not exists ck check (x>0);")
     = ([], [])
  /\ validate_sql_syntax (unlines ["do $$"; "begin"; "  null;"; "end"]%string)
     = ([], [])
  /\ validate_sql_syntax
       (lit "create or replace function f() returns int as begin return 1; end;")
     = ([], []).
Proof.
  split; [|split; [|split; [|vm_compute; repeat split; reflexivity]]].
  - intros sql_content k raw Hk Hc Hin. rewrite validate_spec in Hin.
    apply in_errors_from in Hin as (k' & raw' & Hk' & Hin).
    apply in_line_errors in Hin as [_ [[H Hc']|[H _]]].
    + apply constraint_error_inj in H. injection H as ->. congruence.
    + now apply constraint_not_do_block in H.
  - intros sql_content k raw Hk Hs Hin. rewrite validate_spec in Hin.
    apply in_errors_from in Hin as (k' & raw' & Hk' & Hin).
    apply in_line_errors in Hin as [_ [[H _]|(H & Ho & _)]].
    + symmetry in H. now apply constraint_not_do_block in H.
    + apply do_block_error_inj in H. injection H as ->.
      unfold opens_block in Ho. apply andb_true_iff in Ho as [Ho _].
      congruence.
  - intros sql_content k raw Hk Hc Hin. rewrite validate_spec in Hin.
    apply in_warnings_from in Hin as (k' & raw' & Hk' & Hin).
    apply in_line_warnings in Hin as (_ & H & Hc' & _).
    apply function_warning_inj in H. injection H as ->. congruence.
Qed.

Lemma patterns_case_sensitive_witness :
  (nth_error (split NEWLINE lower_case_document) 0
   = Some (lit "alter table t add constraint if not exists ck check (x>0);")
   /\ contains ADD_CONSTRAINT
        (strip (lit "alter table t add constraint if not exists ck check (x>0);"))
      = false
   /\ nth_error (split NEWLINE lower_case_document) 1 = Some (lit "do $$")
   /\ startswith (strip (lit "do $$")) DO_OPEN = false
   /\ nth_error (split NEWLINE lower_case_document) 2
      = Some (lit "create or replace function f() returns int as 1;")
   /\ contains CREATE_FUNCTION
        (strip (lit "create or replace function f() returns int as 1;"))
      = false)
  /\ ~ In (constraint_error 1)
         (fst (validate_sql_syntax lower_case_document))
  /\ ~ In (do_block_error 2) (fst (validate_sql_syntax lower_case_document))
  /\ ~ In (function_warning 3)
         (snd (validate_sql_syntax lower_case_document)).
Proof.
  split; [vm_compute; repeat split; reflexivity|].
  split; [|split].
  - apply (proj1 patterns_case_sensitive lower_case_document 0
             (lit "alter table t add constraint if not exists ck check (x>0);"));
      vm_compute; reflexivity.
  - apply (proj1 (proj2 patterns_case_sensitive) lower_case_document 1
             (lit "do $$")); vm_compute; reflexivity.
  - apply (proj1 (proj2 (proj2 patterns_case_sensitive)) lower_case_document 2
             (lit "create or replace function f() returns int as 1;"));
      vm_compute; reflexivity.
Defined.

(** ** Termination *)

Lemma check_line_fuel_enough fuel lines i raw st :
  length lines - i < fuel ->
  check_line_fuel fuel lines i raw st = Some (check_line lines i raw st).
Proof.
  intros Hlt. unfold check_line_fuel, check_line. destruct st as [e w].
  rewrite (scan_fuel_enough lines fuel i Hlt).
  destruct (match strip raw with [] => true | _ :: _ => false end
            || startswith (strip raw) COMMENT); [reflexivity|].
  destruct (startswith (strip raw) DO_OPEN
            && negb (endswith (strip raw) DO_CLOSE)); [|reflexivity].
  destruct (block_scan lines i); reflexivity.
Qed.

Lemma for_lines_fuel_enough fuel lines i rest st :
  length lines - i < fuel ->
  for_lines_fuel fuel lines i rest st = Some (for_lines lines i rest st).
Proof.
  revert i st. induction rest as [|raw rest IH]; intros i st Hlt.
  - reflexivity.
  - cbn [for_lines_fuel for_lines].
    rewrite check_line_fuel_enough by assumption. apply IH. lia.
Qed.

(** C10.  The scan terminates on every text.  Each turn of the inner loop
    that does not leave it adds one to its index, which stays within the
    number of lines; so the loop cut after as many tests as there are
    lines after its start has exited, and the whole validator run with a
    bound of [len(lines)] tests per loop returns the result of
    [validate_sql_syntax], for any number of opener lines. *)
Theorem validate_terminates :
  (forall lines j j',
     scan_step lines j = Running j' -> j' = j + 1 /\ j' <= length lines)
  /\ (forall lines j fuel,
        length lines - j < fuel ->
        scan_fuel fuel lines j = Some (block_scan lines j))
  /\ (forall sql_content fuel,
        length (split NEWLINE sql_content) <= fuel ->
        validate_fuel fuel sql_content
        = Some (validate_sql_syntax sql_content)).
Proof.
  split; [|split].
  - intros lines j j' H. apply scan_step_running in H. lia.
  - intros lines j fuel H. now apply scan_fuel_enough.
  - intros sql_content fuel Hle. unfold validate_fuel, validate_sql_syntax.
    apply for_lines_fuel_enough.
    pose proof (split_length NEWLINE sql_content). lia.
Qed.

Lemma validate_terminates_witness :
  (scan_step (split NEWLINE openers_document) 1 = Running 2
   /\ length (split NEWLINE openers_document) - 5 < 2
   /\ length (split NEWLINE openers_document) <= 6)
  /\ (2 = 1 + 1 /\ 2 <= length (split NEWLINE openers_document))
  /\ scan_fuel 2 (split NEWLINE openers_document) 5
     = Some (block_scan (split NEWLINE openers_document) 5)
  /\ validate_fuel 6 openers_document
     = Some (validate_sql_syntax openers_document).
Proof.
  split; [vm_compute; repeat split; lia|].
  split; [|split].
  - apply (proj1 validate_terminates (split NEWLINE openers_document) 1 2).
    vm_compute. reflexivity.
  - apply (proj1 (proj2 validate_terminates)
             (split NEWLINE openers_document) 5 2).
    vm_compute. lia.
  - apply (proj2 (proj2 validate_terminates) openers_document 6).
    vm_compute. lia.
Defined.

(** * Further properties of the scan *)

(** ** Exact conditions of the three findings *)

Lemma constraint_error_in sql_content n :
  In (constraint_error n) (fst (validate_sql_syntax sql_content)) <->
  exists k raw,
    n = S k /\ nth_error (split NEWLINE sql_content) k = Some raw
    /\ skipped (strip raw) = false
    /\ contains ADD_CONSTRAINT (strip raw) = true.
Proof.
  rewrite validate_spec. cbn [fst]. rewrite in_errors_from. split.
  - intros (k & raw & Hk & Hin).
    apply in_line_errors in Hin as [Hs [[H Hc]|[H _]]].
    + apply constraint_error_inj in H. exists k, raw. auto.
    + now apply constraint_not_do_block in H.
  - intros (k & raw & -> & Hk & Hs & Hc). exists k, raw.
    split; [assumption|]. change (1 + k) with (S k).
    unfold line_errors. rewrite Hs, Hc. now left.
Qed.

Lemma do_block_error_in sql_content n :
  In (do_block_error n) (fst (validate_sql_syntax sql_content)) <->
  exists k raw,
    n = S k /\ nth_error (split NEWLINE sql_content) k = Some raw
    /\ opens_block (strip raw) = true
    /\ block_scan (split NEWLINE sql_content) (S k) = Exhausted.
Proof.
  rewrite validate_spec. cbn [fst]. rewrite in_errors_from. split.
  - intros (k & raw & Hk & Hin).
    apply in_line_errors in Hin as [Hs [[H _]|(H & Ho & Hb)]].
    + symmetry in H. now apply constraint_not_do_block in H.
    + apply do_block_error_inj in H. exists k, raw.
      change (1 + k) with (S k) in Hb. auto.
  - intros (k & raw & -> & Hk & Ho & Hb). exists k, raw.
    split; [assumption|]. change (1 + k) with (S k).
    unfold line_errors.
    assert (Hs : skipped (strip raw) = false).
    { apply opener_not_skipped. unfold opens_block in Ho.
      now apply andb_true_iff in Ho as [Ho _]. }
    rewrite Hs, Ho, Hb. apply in_or_app. right. now left.
Qed.

Lemma function_warning_in sql_content n :
  In (function_warning n) (snd (validate_sql_syntax sql_content)) <->
  exists k raw,
    n = S k /\ nth_error (split NEWLINE sql_content) k = Some raw
    /\ skipped (strip raw) = false
    /\ contains CREATE_FUNCTION (strip raw) = true
    /\ contains DOLLARS
         (concat (firstn 11 (skipn k (split NEWLINE sql_content)))) = false.
Proof.
  rewrite validate_spec. cbn [snd]. rewrite in_warnings_from. split.
  - intros (k & raw & Hk & Hin).
    apply in_line_warnings in Hin as (Hs & H & Hc & Hw).
    apply function_warning_inj in H. exists k, raw.
    unfold window, join in Hw. change (1 + k) with (S k) in Hw.
    replace (S k - 1) with k in Hw by lia. auto.
  - intros (k & raw & -> & Hk & Hs & Hc & Hw). exists k, raw.
    split; [assumption|]. change (1 + k) with (S k).
    unfold line_warnings, window, join.
    replace (S k - 1) with k by lia. rewrite Hs, Hc, Hw. now left.
Qed.

(** X1.  The unclosed-block error of a line is emitted exactly when its
    stripped form begins with the opener without ending with the closing
    tag, and no line from it up to, and excluding, the last line of the
    document has a stripped form ending with the closing tag. *)
Theorem unclosed_block_error_exact :
  forall sql_content k raw,
    nth_error (split NEWLINE sql_content) k = Some raw ->
    (In (do_block_error (S k)) (fst (validate_sql_syntax sql_content)) <->
     (startswith (strip raw) DO_OPEN = true
      /\ endswith (strip raw) DO_CLOSE = false)
     /\ forall m raw',
          k <= m -> S m < length (split NEWLINE sql_content) ->
          nth_error (split NEWLINE sql_content) m = Some raw' ->
          endswith (strip raw') DO_CLOSE = false).
Proof.
  intros sql_content k raw Hk.
  rewrite (do_block_error_iff sql_content k raw Hk).
  unfold opens_block. rewrite andb_true_iff, negb_true_iff. reflexivity.
Qed.

Lemma unclosed_block_error_exact_witness :
  nth_error (split NEWLINE scenario3) 0 = Some (lit "DO $$")
  /\ (In (do_block_error 1) (fst (validate_sql_syntax scenario3)) <->
      (startswith (strip (lit "DO $$")) DO_OPEN = true
       /\ endswith (strip (lit "DO $$")) DO_CLOSE = false)
      /\ forall m raw',
           0 <= m -> S m < length (split NEWLINE scenario3) ->
           nth_error (split NEWLINE scenario3) m = Some raw' ->
           endswith (strip raw') DO_CLOSE = false).
Proof.
  split; [vm_compute; reflexivity|].
  apply (unclosed_block_error_exact scenario3 0 (lit "DO $$")).
  vm_compute. reflexivity.
Defined.

(** X2.  The constraint error of a line is emitted exactly when the
    stripped form of the line is not empty, does not start with the comment
    marker and contains the clause. *)
Theorem constraint_error_exact :
  forall sql_content k raw,
    nth_error (split NEWLINE sql_content) k = Some raw ->
    (In (constraint_error (S k)) (fst (validate_sql_syntax sql_content)) <->
     strip raw <> []
     /\ startswith (strip raw) COMMENT = false
     /\ contains ADD_CONSTRAINT (strip raw) = true).
Proof.
  intros sql_content k raw Hk. rewrite constraint_error_in. split.
  - intros (k' & raw' & H & Hk' & Hs & Hc). injection H as <-.
    rewrite Hk in Hk'. injection Hk' as <-.
    apply skipped_false in Hs as [Hne Hnc]. auto.
  - intros (Hne & Hnc & Hc). exists k, raw.
    repeat split; try assumption. now apply not_skipped.
Qed.

Lemma constraint_error_exact_witness :
  nth_error (split NEWLINE numbered_document) 3
  = Some (lit "ALTER TABLE t ADD CONSTRAINT IF NOT EXISTS c CHECK (x>0);")
  /\ (In (constraint_error 4)
         (fst (validate_sql_syntax numbered_document)) <->
      strip (lit "ALTER TABLE t ADD CONSTRAINT IF NOT EXISTS c CHECK (x>0);")
      <> []
      /\ startswith
           (strip (lit "ALTER TABLE t ADD CONSTRAINT IF NOT EXISTS c CHECK (x>0);"))
           COMMENT = false
      /\ contains ADD_CONSTRAINT
           (strip (lit "ALTER TABLE t ADD CONSTRAINT IF NOT EXISTS c CHECK (x>0);"))
         = true).
Proof.
  split; [vm_compute; reflexivity|].
  apply (constraint_error_exact numbered_document 3).
  vm_compute. reflexivity.
Defined.

(** X3.  The delimiter warning of a line is emitted exactly when the line
    is neither blank nor a comment, contains [CREATE OR REPLACE FUNCTION],
    and the marker occurs nowhere in the concatenation of the raw line and
    the ten raw lines after it, comment and blank lines included. *)
Theorem function_warning_exact :
  forall sql_content k raw,
    nth_error (split NEWLINE sql_content) k = Some raw ->
    (In (function_warning (S k)) (snd (validate_sql_syntax sql_content)) <->
     strip raw <> []
     /\ startswith (strip raw) COMMENT = false
     /\ contains CREATE_FUNCTION (strip raw) = true
     /\ contains DOLLARS
          (concat (firstn 11 (skipn k (split NEWLINE sql_content))))
        = false).
Proof.
  intros sql_content k raw Hk. rewrite function_warning_in. split.
  - intros (k' & raw' & H & Hk' & Hs & Hc & Hw). injection H as <-.
    rewrite Hk in Hk'. injection Hk' as <-.
    apply skipped_false in Hs as [Hne Hnc]. auto.
  - intros (Hne & Hnc & Hc & Hw). exists k, raw.
    repeat split; try assumption. now apply not_skipped.
Qed.

Lemma function_warning_exact_witness :
  nth_error (split NEWLINE function_document) 1
  = Some (lit "CREATE OR REPLACE FUNCTION f()")
  /\ (In (function_warning 2)
         (snd (validate_sql_syntax function_document)) <->
      strip (lit "CREATE OR REPLACE FUNCTION f()") <> []
      /\ startswith (strip (lit "CREATE OR REPLACE FUNCTION f()")) COMMENT
         = false
      /\ contains CREATE_FUNCTION (strip (lit "CREATE OR REPLACE FUNCTION f()"))
         = true
      /\ contains DOLLARS
           (concat (firstn 11 (skipn 1 (split NEWLINE function_document))))
         = false).
Proof.
  split; [vm_compute; reflexivity|].
  apply (function_warning_exact function_document 1).
  vm_compute. reflexivity.
Defined.

(** X4.  A line whose stripped form is empty or starts with the comment
    marker is never reported: none of the three messages carries its
    number, whatever the line and the lines after it hold. *)
Theorem skipped_line_never_reported :
  forall sql_content k raw,
    nth_error (split NEWLINE sql_content) k = Some raw ->
    strip raw = [] \/ startswith (strip raw) COMMENT = true ->
    ~ In (constraint_error (S k)) (fst (validate_sql_syntax sql_content))
    /\ ~ In (do_block_error (S k)) (fst (validate_sql_syntax sql_content))
    /\ ~ In (function_warning (S k)) (snd (validate_sql_syntax sql_content)).
Proof.
  intros sql_content k raw Hk Hskip.
  assert (Hs : skipped (strip raw) = true).
  { unfold skipped. destruct Hskip as [->| ->]; [reflexivity|].
    apply orb_true_r. }
  repeat split.
  - rewrite constraint_error_in.
    intros (k' & raw' & H & Hk' & Hs' & _). injection H as <-.
    rewrite Hk in Hk'. injection Hk' as <-. congruence.
  - rewrite do_block_error_in.
    intros (k' & raw' & H & Hk' & Ho & _). injection H as <-.
    rewrite Hk in Hk'. injection Hk' as <-.
    unfold opens_block in Ho. apply andb_true_iff in Ho as [Ho _].
    apply opener_not_skipped in Ho. congruence.
  - rewrite function_warning_in.
    intros (k' & raw' & H & Hk' & Hs' & _). injection H as <-.
    rewrite Hk in Hk'. injection Hk' as <-. congruence.
Qed.

Lemma skipped_line_never_reported_witness :
  (nth_error (split NEWLINE commented_document) 0 = Some (lit "  -- DO $$")
   /\ (strip (lit "  -- DO $$") = []
       \/ startswith (strip (lit "  -- DO $$")) COMMENT = true))
  /\ ~ In (constraint_error 1)
         (fst (validate_sql_syntax commented_document))
  /\ ~ In (do_block_error 1) (fst (validate_sql_syntax commented_document))
  /\ ~ In (function_warning 1)
         (snd (validate_sql_syntax commented_document)).
Proof.
  split.
  - split; [vm_compute; reflexivity|]. right. vm_compute. reflexivity.
  - apply (skipped_line_never_reported commented_document 0
             (lit "  -- DO $$")).
    + vm_compute. reflexivity.
    + right. vm_compute. reflexivity.
Defined.

(** ** How many findings, and in which order *)

Lemma line_errors_shape lines i raw :
  exists fs,
    line_errors lines i raw = map render_error fs
    /\ StronglySorted finding_lt fs
    /\ Forall (fun f => fst f = i) fs
    /\ length fs <= 2.
Proof.
  unfold line_errors. destruct (skipped (strip raw)).
  { exists []. repeat split; auto using SSorted_nil. }
  destruct (contains ADD_CONSTRAINT (strip raw));
    destruct (opens_block (strip raw)); try destruct (block_scan lines i).
  all: try (exists [(i, ConstraintClause)];
            repeat split; auto using SSorted_nil, SSorted_cons; fail).
  all: try (exists [(i, UnclosedBlock)];
            repeat split; auto using SSorted_nil, SSorted_cons; fail).
  all: try (exists []; repeat split; auto using SSorted_nil; fail).
  exists [(i, ConstraintClause); (i, UnclosedBlock)].
  repeat split; auto.
  apply SSorted_cons; [auto using SSorted_nil, SSorted_cons|].
  constructor; [|constructor]. right. auto.
Qed.

Lemma strongly_sorted_app {A} (R : A -> A -> Prop) l1 l2 :
  StronglySorted R l1 -> StronglySorted R l2 ->
  (forall x y, In x l1 -> In y l2 -> R x y) ->
  StronglySorted R (l1 ++ l2).
Proof.
  intros H1 H2 H12. induction H1 as [|a l1 H1 IH Ha]; [assumption|].
  simpl. apply SSorted_cons.
  - apply IH. intros x y Hx Hy. apply H12; [now right|assumption].
  - apply Forall_app. split; [assumption|].
    apply Forall_forall. intros y Hy. apply H12; [now left|assumption].
Qed.

Lemma errors_from_shape lines i rest :
  exists fs,
    errors_from lines i rest = map render_error fs
    /\ StronglySorted finding_lt fs
    /\ Forall (fun f => i <= fst f < i + length rest) fs
    /\ length fs <= 2 * length rest.
Proof.
  revert i. induction rest as [|raw rest IH]; intros i.
  - exists []. repeat split; auto using SSorted_nil.
  - destruct (line_errors_shape lines i raw) as (f0 & E0 & S0 & B0 & L0).
    destruct (IH (S i)) as (f1 & E1 & S1 & B1 & L1).
    exists (f0 ++ f1). cbn [errors_from].
    rewrite E0, E1, map_app, length_app. repeat split.
    + apply strongly_sorted_app; try assumption.
      intros x y Hx Hy. left.
      rewrite Forall_forall in B0, B1.
      rewrite (B0 x Hx). specialize (B1 y Hy). lia.
    + apply Forall_app. split.
      * eapply Forall_impl; [|exact B0]. simpl. intros f ->. lia.
      * eapply Forall_impl; [|exact B1]. simpl. intros f H. lia.
    + simpl length. lia.
Qed.

Lemma line_warnings_shape lines i raw :
  line_warnings lines i raw = [] \/
  line_warnings lines i raw = [function_warning i].
Proof.
  unfold line_warnings. destruct (skipped (strip raw)); [now left|].
  destruct (contains CREATE_FUNCTION (strip raw)
            && negb (contains DOLLARS (join (window lines i)))); auto.
Qed.

Lemma warnings_from_shape lines i rest :
  exists ns,
    warnings_from lines i rest = map function_warning ns
    /\ StronglySorted lt ns
    /\ Forall (fun n => i <= n < i + length rest) ns
    /\ length ns <= length rest.
Proof.
  revert i. induction rest as [|raw rest IH]; intros i.
  - exists []. repeat split; auto using SSorted_nil.
  - destruct (IH (S i)) as (ns & E & S1 & B & L).
    cbn [warnings_from]. rewrite E.
    destruct (line_warnings_shape lines i raw) as [-> | ->].
    + exists ns. repeat split; try assumption.
      * eapply Forall_impl; [|exact B]. simpl. intros n H. lia.
      * simpl. lia.
    + exists (i :: ns). repeat split.
      * apply SSorted_cons; [assumption|].
        eapply Forall_impl; [|exact B]. simpl. intros n H. lia.
      * constructor; [simpl; lia|].
        eapply Forall_impl; [|exact B]. simpl. intros n H. lia.
      * simpl. lia.
Qed.

Lemma render_error_inj f g : render_error f = render_error g -> f = g.
Proof.
  destruct f as [i [|]], g as [j [|]]; unfold render_error; simpl; intros H.
  - apply constraint_error_inj in H. now subst.
  - now apply constraint_not_do_block in H.
  - symmetry in H. now apply constraint_not_do_block in H.
  - apply do_block_error_inj in H. now subst.
Qed.

Lemma finding_lt_irrefl f : ~ finding_lt f f.
Proof.
  intros [H|(_ & H1 & H2)]; [lia|]. rewrite H1 in H2. discriminate.
Qed.

Lemma strongly_sorted_nodup {A} (R : A -> A -> Prop) l :
  (forall x, ~ R x x) -> StronglySorted R l -> NoDup l.
Proof.
  intros Hirr H. induction H as [|a l H IH Ha]; constructor; [|assumption].
  intros Hin. rewrite Forall_forall in Ha. exact (Hirr a (Ha a Hin)).
Qed.

Lemma nodup_map_inj {A B} (f : A -> B) l :
  (forall x y, f x = f y -> x = y) -> NoDup l -> NoDup (map f l).
Proof.
  intros Hinj H. induction H as [|a l Ha H IH]; simpl; constructor;
    [|assumption].
  intros Hin. apply in_map_iff in Hin as (x & Hx & Hin).
  apply Hinj in Hx. now subst.
Qed.

(** X5.  A line gives at most two errors and at most one warning: a
    document has at most twice as many errors, and at most as many
    warnings, as it has lines, and it has one line more than it has
    newline characters. *)
Theorem findings_bounded :
  forall sql_content,
    length (fst (validate_sql_syntax sql_content))
    <= 2 * S (count_occ N.eq_dec sql_content NEWLINE)
    /\ length (snd (validate_sql_syntax sql_content))
       <= S (count_occ N.eq_dec sql_content NEWLINE).
Proof.
  intros sql_content. rewrite validate_spec. cbn [fst snd].
  rewrite <- (split_length NEWLINE sql_content).
  set (lines := split NEWLINE sql_content). split.
  - destruct (errors_from_shape lines 1 lines) as (fs & -> & _ & _ & L).
    now rewrite length_map.
  - destruct (warnings_from_shape lines 1 lines) as (ns & -> & _ & _ & L).
    now rewrite length_map.
Qed.

(** X6.  The errors are listed by increasing line number, the constraint
    error of a line before its unclosed-block error, and the warnings by
    increasing line number; every number is that of a line of the
    document. *)
Theorem findings_ordered :
  forall sql_content,
    (exists fs,
       fst (validate_sql_syntax sql_content) = map render_error fs
       /\ StronglySorted finding_lt fs
       /\ Forall (fun f => 1 <= fst f <= length (split NEWLINE sql_content))
            fs)
    /\ (exists ns,
          snd (validate_sql_syntax sql_content) = map function_warning ns
          /\ StronglySorted lt ns
          /\ Forall (fun n => 1 <= n <= length (split NEWLINE sql_content))
               ns).
Proof.
  intros sql_content. rewrite validate_spec. cbn [fst snd].
  set (lines := split NEWLINE sql_content). split.
  - destruct (errors_from_shape lines 1 lines) as (fs & E & S1 & B & _).
    exists fs. repeat split; try assumption.
    eapply Forall_impl; [|exact B]. simpl. intros f H. lia.
  - destruct (warnings_from_shape lines 1 lines) as (ns & E & S1 & B & _).
    exists ns. repeat split; try assumption.
    eapply Forall_impl; [|exact B]. simpl. intros n H. lia.
Qed.

(** X7.  No message is returned twice: the errors are pairwise distinct,
    and so are the warnings. *)
Theorem findings_distinct :
  forall sql_content,
    NoDup (fst (validate_sql_syntax sql_content))
    /\ NoDup (snd (validate_sql_syntax sql_content)).
Proof.
  intros sql_content. rewrite validate_spec. cbn [fst snd].
  set (lines := split NEWLINE sql_content). split.
  - destruct (errors_from_shape lines 1 lines) as (fs & -> & S1 & _ & _).
    apply nodup_map_inj; [exact render_error_inj|].
    apply (strongly_sorted_nodup finding_lt); [|assumption].
    exact finding_lt_irrefl.
  - destruct (warnings_from_shape lines 1 lines) as (ns & -> & S1 & _ & _).
    apply nodup_map_inj; [exact function_warning_inj|].
    apply (strongly_sorted_nodup lt); [|assumption].
    intros x. lia.
Qed.

(** ** Text before and after a line *)

Lemma split_app sep a b :
  split sep (a ++ sep :: b) = split sep a ++ split sep b.
Proof.
  induction a as [|c a IH]; simpl.
  - now rewrite chr_eqb_refl.
  - destruct (chr_eqb c sep); rewrite IH; [reflexivity|].
    pose proof (split_not_nil sep a).
    destruct (split sep a); [congruence|reflexivity].
Qed.

Lemma scan_outcome_eq o1 o2 :
  (o1 = Exhausted <-> o2 = Exhausted) -> o1 = o2.
Proof.
  destruct o1, o2; intros [H1 H2]; try reflexivity.
  - now apply H2.
  - symmetry. now apply H1.
Qed.

Lemma closes_app_r la lb m :
  1 <= m -> closes (la ++ lb) (length la + m) = closes lb m.
Proof.
  intros Hm. unfold closes. rewrite app_nth2 by lia.
  replace (length la + m - 1 - length la) with (m - 1) by lia. reflexivity.
Qed.

Lemma closes_app_l la lb m :
  m <= length la -> 1 <= m -> closes (la ++ lb) m = closes la m.
Proof.
  intros Hm H1. unfold closes. now rewrite app_nth1 by lia.
Qed.

(** The scan looks forward only. *)
Lemma block_scan_app_r la lb j :
  1 <= j -> block_scan (la ++ lb) (length la + j) = block_scan lb j.
Proof.
  intros Hj. apply scan_outcome_eq. rewrite !block_scan_exhausted.
  rewrite length_app. split; intros H m Hm.
  - rewrite <- (closes_app_r la lb m) by lia. apply H. lia.
  - replace m with (length la + (m - length la)) by lia.
    rewrite closes_app_r by lia. apply H. lia.
Qed.

Lemma block_scan_app_l la lb j :
  1 <= j -> block_scan (la ++ lb) j = Exhausted ->
  block_scan la j = Exhausted.
Proof.
  rewrite !block_scan_exhausted, length_app. intros Hj H m Hm.
  rewrite <- (closes_app_l la lb m) by lia. apply H. lia.
Qed.

Lemma window_app_r (la lb : list str) k :
  firstn 11 (skipn (length la + k) (la ++ lb)) = firstn 11 (skipn k lb).
Proof.
  rewrite skipn_app, skipn_all2 by lia.
  replace (length la + k - length la) with k by lia. reflexivity.
Qed.

Lemma window_app_l (la lb : list str) k :
  k <= length la ->
  exists more,
    concat (firstn 11 (skipn k (la ++ lb)))
    = concat (firstn 11 (skipn k la)) ++ more.
Proof.
  intros Hk. rewrite skipn_app.
  replace (k - length la) with 0 by lia. simpl skipn.
  rewrite firstn_app, concat_app. eauto.
Qed.

(** X8.  The findings of the text after a newline do not depend on the
    text before it, up to numbering: a message for line [n] of [b] alone
    is returned exactly when the same message for line [p + n] is returned
    for [a], a newline and [b], where [p] is the number of lines of [a]. *)
Theorem findings_of_suffix :
  forall a b n,
    1 <= n ->
    (In (constraint_error (length (split NEWLINE a) + n))
        (fst (validate_sql_syntax (a ++ NEWLINE :: b)))
     <-> In (constraint_error n) (fst (validate_sql_syntax b)))
    /\ (In (do_block_error (length (split NEWLINE a) + n))
           (fst (validate_sql_syntax (a ++ NEWLINE :: b)))
        <-> In (do_block_error n) (fst (validate_sql_syntax b)))
    /\ (In (function_warning (length (split NEWLINE a) + n))
           (snd (validate_sql_syntax (a ++ NEWLINE :: b)))
        <-> In (function_warning n) (snd (validate_sql_syntax b))).
Proof.
  intros a b n Hn.
  rewrite !constraint_error_in, !do_block_error_in, !function_warning_in.
  rewrite split_app.
  set (la := split NEWLINE a). set (lb := split NEWLINE b).
  split; [|split]; split.
  - intros (k & raw & Hk & Hnth & Hs & Hc).
    exists (n - 1), raw. rewrite nth_error_app2 in Hnth by lia.
    replace (k - length la) with (n - 1) in Hnth by lia.
    repeat split; try assumption; lia.
  - intros (k & raw & Hk & Hnth & Hs & Hc).
    exists (length la + k), raw. rewrite nth_error_app2 by lia.
    replace (length la + k - length la) with k by lia.
    repeat split; try assumption; lia.
  - intros (k & raw & Hk & Hnth & Ho & Hb).
    exists (n - 1), raw. rewrite nth_error_app2 in Hnth by lia.
    replace (k - length la) with (n - 1) in Hnth by lia.
    replace (S k) with (length la + n) in Hb by lia.
    rewrite block_scan_app_r in Hb by lia.
    replace (S (n - 1)) with n by lia.
    repeat split; try assumption; lia.
  - intros (k & raw & Hk & Hnth & Ho & Hb).
    exists (length la + k), raw. rewrite nth_error_app2 by lia.
    replace (length la + k - length la) with k by lia.
    replace (S (length la + k)) with (length la + S k) by lia.
    rewrite block_scan_app_r by lia.
    repeat split; try assumption; lia.
  - intros (k & raw & Hk & Hnth & Hs & Hc & Hw).
    exists (n - 1), raw. rewrite nth_error_app2 in Hnth by lia.
    replace (k - length la) with (n - 1) in Hnth by lia.
    replace k with (length la + (n - 1)) in Hw by lia.
    rewrite window_app_r in Hw.
    repeat split; try assumption; lia.
  - intros (k & raw & Hk & Hnth & Hs & Hc & Hw).
    exists (length la + k), raw. rewrite nth_error_app2 by lia.
    replace (length la + k - length la) with k by lia.
    rewrite window_app_r.
    repeat split; try assumption; lia.
Qed.

Lemma findings_of_suffix_witness :
  1 <= 1
  /\ (In (constraint_error (length (split NEWLINE scenario3) + 1))
         (fst (validate_sql_syntax (scenario3 ++ NEWLINE :: scenario2)))
      <-> In (constraint_error 1) (fst (validate_sql_syntax scenario2)))
  /\ (In (do_block_error (length (split NEWLINE scenario3) + 1))
         (fst (validate_sql_syntax (scenario3 ++ NEWLINE :: scenario2)))
      <-> In (do_block_error 1) (fst (validate_sql_syntax scenario2)))
  /\ (In (function_warning (length (split NEWLINE scenario3) + 1))
         (snd (validate_sql_syntax (scenario3 ++ NEWLINE :: scenario2)))
      <-> In (function_warning 1) (snd (validate_sql_syntax scenario2))).
Proof.
  split; [lia|]. apply (findings_of_suffix scenario3 scenario2 1). lia.
Defined.

(** X9.  Text appended after a newline keeps the constraint errors of the
    lines before it, and adds no finding to them: a constraint error, an
    unclosed-block error or a warning for one of the first [p] lines of the
    longer document is also returned for the first part alone. *)
Theorem findings_of_prefix :
  forall a b n,
    (In (constraint_error n) (fst (validate_sql_syntax a)) ->
     In (constraint_error n) (fst (validate_sql_syntax (a ++ NEWLINE :: b))))
    /\ (n <= length (split NEWLINE a) ->
        In (constraint_error n)
           (fst (validate_sql_syntax (a ++ NEWLINE :: b))) ->
        In (constraint_error n) (fst (validate_sql_syntax a)))
    /\ (n <= length (split NEWLINE a) ->
        In (do_block_error n)
           (fst (validate_sql_syntax (a ++ NEWLINE :: b))) ->
        In (do_block_error n) (fst (validate_sql_syntax a)))
    /\ (n <= length (split NEWLINE a) ->
        In (function_warning n)
           (snd (validate_sql_syntax (a ++ NEWLINE :: b))) ->
        In (function_warning n) (snd (validate_sql_syntax a))).
Proof.
  intros a b n.
  rewrite !constraint_error_in, !do_block_error_in, !function_warning_in.
  rewrite split_app.
  set (la := split NEWLINE a). set (lb := split NEWLINE b).
  split; [|split; [|split]].
  - intros (k & raw & Hk & Hnth & Hs & Hc). exists k, raw.
    assert (k < length la) by (apply nth_error_Some; congruence).
    rewrite nth_error_app1 by assumption. auto.
  - intros Hn (k & raw & Hk & Hnth & Hs & Hc). exists k, raw.
    rewrite nth_error_app1 in Hnth by lia. auto.
  - intros Hn (k & raw & Hk & Hnth & Ho & Hb). exists k, raw.
    rewrite nth_error_app1 in Hnth by lia.
    apply block_scan_app_l in Hb; [auto|lia].
  - intros Hn (k & raw & Hk & Hnth & Hs & Hc & Hw). exists k, raw.
    rewrite nth_error_app1 in Hnth by lia.
    repeat split; try assumption.
    destruct (window_app_l la lb k) as [more Hmore]; [lia|].
    rewrite Hmore in Hw.
    destruct (contains DOLLARS (concat (firstn 11 (skipn k la)))) eqn:E;
      [|reflexivity].
    assert (Ht : contains DOLLARS
                   (concat (firstn 11 (skipn k la)) ++ more) = true).
    { apply (contains_trans _ _ _ E). exists [], more. reflexivity. }
    congruence.
Qed.

Lemma findings_of_prefix_witness :
  (In (constraint_error 1) (fst (validate_sql_syntax scenario2))
   /\ 1 <= length (split NEWLINE scenario3)
   /\ In (do_block_error 1)
        (fst (validate_sql_syntax (scenario3 ++ NEWLINE :: scenario2)))
   /\ 1 <= length (split NEWLINE scenario5)
   /\ In (function_warning 1)
        (snd (validate_sql_syntax (scenario5 ++ NEWLINE :: scenario2))))
  /\ In (constraint_error 1)
       (fst (validate_sql_syntax (scenario2 ++ NEWLINE :: scenario3)))
  /\ In (do_block_error 1) (fst (validate_sql_syntax scenario3))
  /\ In (function_warning 1) (snd (validate_sql_syntax scenario5)).
Proof.
  split; [|split; [|split]].
  - vm_compute. repeat split; try lia; left; reflexivity.
  - apply (proj1 (findings_of_prefix scenario2 scenario3 1)).
    vm_compute. left. reflexivity.
  - apply (proj1 (proj2 (proj2 (findings_of_prefix scenario3 scenario2 1)))).
    + vm_compute. lia.
    + vm_compute. left. reflexivity.
  - apply (proj2 (proj2 (proj2 (findings_of_prefix scenario5 scenario2 1)))).
    + vm_compute. lia.
    + vm_compute. left. reflexivity.
Defined.

(** ** Documents that end with a newline *)

Lemma split_trailing_newline t :
  split NEWLINE (t ++ [NEWLINE]) = split NEWLINE t ++ [[]].
Proof. exact (split_app NEWLINE t []). Qed.

(** X10.  In a document that ends with a newline the last line is empty,
    so the block scan reaches every line that can close a block: the
    unclosed-block error of an opener is emitted exactly when no line from
    it through the end of the document has a stripped form ending with the
    closing tag. *)
Theorem unclosed_block_newline_terminated :
  forall t k raw,
    nth_error (split NEWLINE (t ++ [NEWLINE])) k = Some raw ->
    (In (do_block_error (S k))
        (fst (validate_sql_syntax (t ++ [NEWLINE]))) <->
     (startswith (strip raw) DO_OPEN = true
      /\ endswith (strip raw) DO_CLOSE = false)
     /\ forall m raw',
          k <= m ->
          nth_error (split NEWLINE (t ++ [NEWLINE])) m = Some raw' ->
          endswith (strip raw') DO_CLOSE = false).
Proof.
  intros t k raw Hk.
  rewrite (do_block_error_iff (t ++ [NEWLINE]) k raw Hk).
  unfold opens_block. rewrite andb_true_iff, negb_true_iff.
  rewrite split_trailing_newline, length_app. simpl length.
  set (lt := split NEWLINE t).
  split; intros [Ho H]; (split; [exact Ho|]).
  - intros m raw' Hkm Hnth.
    destruct (Nat.lt_ge_cases (S m) (length lt + 1)) as [Hlt|Hge].
    + now apply (H m).
    + assert (m < length (lt ++ [[]])) by (apply nth_error_Some; congruence).
      rewrite length_app in *. simpl length in *.
      rewrite nth_error_app2 in Hnth by lia.
      replace (m - length lt) with 0 in Hnth by lia.
      injection Hnth as <-. reflexivity.
  - intros m raw' Hkm _ Hnth. now apply (H m).
Qed.

Lemma unclosed_block_newline_terminated_witness :
  nth_error (split NEWLINE (scenario4 ++ [NEWLINE])) 0 = Some (lit "DO $$")
  /\ (In (do_block_error 1)
         (fst (validate_sql_syntax (scenario4 ++ [NEWLINE]))) <->
      (startswith (strip (lit "DO $$")) DO_OPEN = true
       /\ endswith (strip (lit "DO $$")) DO_CLOSE = false)
      /\ forall m raw',
           0 <= m ->
           nth_error (split NEWLINE (scenario4 ++ [NEWLINE])) m = Some raw' ->
           endswith (strip raw') DO_CLOSE = false).
Proof.
  split; [vm_compute; reflexivity|].
  apply (unclosed_block_newline_terminated scenario4 0 (lit "DO $$")).
  vm_compute. reflexivity.
Defined.

(** ** The window is joined without a separator *)

Lemma skipn_two {A} (l : list A) k x y :
  nth_error l k = Some x -> nth_error l (S k) = Some y ->
  exists rest, skipn k l = x :: y :: rest.
Proof.
  revert l. induction k as [|k IH]; intros [|a l] Hx Hy;
    simpl in *; try discriminate.
  - injection Hx as ->. destruct l as [|b l]; [discriminate|].
    simpl in Hy. injection Hy as ->. now exists l.
  - now apply IH.
Qed.

(** X11.  The lines of the window are concatenated with nothing between
    them: when a line ends with [$] and the next line begins with [$], the
    two characters count as the marker, and the first of the two lines
    gets no delimiter warning. *)
Theorem marker_across_line_break :
  forall sql_content k head tail,
    nth_error (split NEWLINE sql_content) k = Some (head ++ [DOLLAR]) ->
    nth_error (split NEWLINE sql_content) (S k) = Some (DOLLAR :: tail) ->
    ~ In (function_warning (S k)) (snd (validate_sql_syntax sql_content)).
Proof.
  intros sql_content k head tail Hk HSk.
  rewrite function_warning_in.
  intros (k' & raw & H & _ & _ & _ & Hw). injection H as <-.
  destruct (skipn_two _ _ _ _ Hk HSk) as [rest Hrest].
  rewrite Hrest in Hw. rewrite contains_false_iff in Hw.
  apply (Hw head (tail ++ concat (firstn 9 rest))).
  cbn [firstn concat]. rewrite <- app_assoc. reflexivity.
Qed.

Lemma marker_across_line_break_witness :
  (nth_error (split NEWLINE split_marker_document) 0
   = Some (lit "CREATE OR REPLACE FUNCTION f() RETURNS int AS " ++ [DOLLAR])
   /\ nth_error (split NEWLINE split_marker_document) 1
      = Some (DOLLAR :: lit " SELECT 1"))
  /\ ~ In (function_warning 1)
         (snd (validate_sql_syntax split_marker_document)).
Proof.
  split; [vm_compute; split; reflexivity|].
  apply (marker_across_line_break split_marker_document 0
           (lit "CREATE OR REPLACE FUNCTION f() RETURNS int AS ")
           (lit " SELECT 1")); vm_compute; reflexivity.
Defined.

(** ** Leading and trailing whitespace *)

Lemma lstrip_head s : head_not_space (lstrip s).
Proof.
  induction s as [|c s IH]; simpl; [exact I|].
  destruct (isspace c) eqn:E; [assumption|exact E].
Qed.

Lemma lstrip_fix t : head_not_space t -> lstrip t = t.
Proof.
  destruct t as [|c t]; simpl; [reflexivity|]. now intros ->.
Qed.

Lemma lstrip_snoc a c :
  isspace c = false -> exists u, lstrip (a ++ [c]) = u ++ [c].
Proof.
  intros Hc. induction a as [|x a [u Hu]]; simpl.
  - rewrite Hc. now exists [].
  - destruct (isspace x); [now exists u|]. now exists (x :: a).
Qed.

Lemma rstrip_head t : head_not_space t -> head_not_space (rstrip t).
Proof.
  destruct t as [|c t]; [intros _; exact I|]. simpl. intros Hc.
  unfold rstrip. simpl rev.
  destruct (lstrip_snoc (rev t) c Hc) as [u ->].
  rewrite rev_app_distr. exact Hc.
Qed.

Lemma rstrip_idem s : rstrip (rstrip s) = rstrip s.
Proof.
  unfold rstrip. rewrite rev_involutive.
  now rewrite (lstrip_fix (lstrip (rev s)) (lstrip_head (rev s))).
Qed.

Lemma strip_idem s : strip (strip s) = strip s.
Proof.
  unfold strip.
  rewrite (lstrip_fix (rstrip (lstrip s)) (rstrip_head _ (lstrip_head s))).
  apply rstrip_idem.
Qed.

Lemma in_strip c s : In c (strip s) -> In c s.
Proof.
  intros H. destruct (strip_substring s) as (a & b & E). rewrite E.
  apply in_or_app. right. apply in_or_app. now left.
Qed.

Lemma split_no_sep sep p : ~ In sep p -> split sep p = [p].
Proof.
  induction p as [|c p IH]; intros H; [reflexivity|].
  simpl. unfold chr_eqb. destruct (N.eqb_spec c sep) as [->|Hne].
  - destruct H. now left.
  - rewrite IH; [reflexivity|]. intros Hin. apply H. now right.
Qed.

Lemma split_join_inv sep pieces :
  pieces <> [] -> Forall (fun p => ~ In sep p) pieces ->
  split sep (join_with sep pieces) = pieces.
Proof.
  induction pieces as [|p pieces IH]; intros Hne Hall; [congruence|].
  inversion Hall as [|? ? Hp Hrest]; subst.
  destruct pieces as [|q pieces].
  - simpl. now apply split_no_sep.
  - change (join_with sep (p :: q :: pieces))
      with (p ++ sep :: join_with sep (q :: pieces)).
    rewrite split_app, split_no_sep by assumption.
    rewrite IH; [reflexivity|discriminate|assumption].
Qed.

Lemma split_strip_lines sql_content :
  split NEWLINE (strip_lines sql_content)
  = map strip (split NEWLINE sql_content).
Proof.
  unfold strip_lines. apply split_join_inv.
  - pose proof (split_not_nil NEWLINE sql_content).
    destruct (split NEWLINE sql_content); [congruence|discriminate].
  - apply Forall_forall. intros p Hp.
    apply in_map_iff in Hp as (raw & <- & Hraw).
    intros Hin. apply in_strip in Hin.
    now apply split_pieces in Hraw.
Qed.

Lemma closes_map_strip lines m :
  closes (map strip lines) m = closes lines m.
Proof.
  unfold closes. change (@nil char) with (strip []) at 1.
  now rewrite map_nth, strip_idem.
Qed.

Lemma block_scan_map_strip lines j :
  block_scan (map strip lines) j = block_scan lines j.
Proof.
  apply scan_outcome_eq. rewrite !block_scan_exhausted, length_map.
  split; intros H m Hm.
  - rewrite <- closes_map_strip. now apply H.
  - rewrite closes_map_strip. now apply H.
Qed.

Lemma errors_from_map_strip lines i rest :
  errors_from (map strip lines) i (map strip rest)
  = errors_from lines i rest.
Proof.
  revert i. induction rest as [|raw rest IH]; intros i; [reflexivity|].
  cbn [map errors_from]. rewrite IH. f_equal.
  unfold line_errors. now rewrite strip_idem, block_scan_map_strip.
Qed.

(** X12.  The errors do not depend on the whitespace at the two ends of
    the lines: the document in which every line is replaced by its
    stripped form has the same errors, in the same order. *)
Theorem errors_ignore_indentation :
  forall sql_content,
    split NEWLINE (strip_lines sql_content)
    = map strip (split NEWLINE sql_content)
    /\ fst (validate_sql_syntax (strip_lines sql_content))
       = fst (validate_sql_syntax sql_content).
Proof.
  intros sql_content. split; [apply split_strip_lines|].
  rewrite !validate_spec. cbn [fst].
  rewrite split_strip_lines. apply errors_from_map_strip.
Qed.

(** ** The report *)

Lemma in_indented x (l : list str) :
  In (lit "  " ++ x) (map (fun e => lit "  " ++ e) l) <-> In x l.
Proof.
  rewrite in_map_iff. split.
  - intros (e & He & Hin). apply app_inv_head in He. now subst.
  - intros Hin. now exists x.
Qed.

Lemma in_report_indented sql_content x :
  In (lit "  " ++ x) (fst (main (Opened sql_content))) <->
  In x (fst (validate_sql_syntax sql_content))
  \/ In x (snd (validate_sql_syntax sql_content)).
Proof.
  unfold main.
  destruct (validate_sql_syntax sql_content) as [errors warnings].
  cbn [fst snd].
  destruct errors as [|error errors];
    destruct warnings as [|warning warnings];
    rewrite !in_app_iff, ?in_indented; split; intros H.
  all: repeat match goal with
              | H : _ \/ _ |- _ => destruct H as [H|H]
              end.
  all: repeat match goal with
              | H : In (lit "  " ++ _) (_ :: _) |- _ =>
                  destruct H as [H|H]; [discriminate|]
              | H : In _ [] |- _ => destruct H
              end.
  all: tauto.
Qed.

Lemma not_in_literal c s : existsb (chr_eqb c) s = false -> ~ In c s.
Proof.
  intros H Hin.
  assert (Ht : existsb (chr_eqb c) s = true).
  { apply existsb_exists. exists c. split; [assumption|apply chr_eqb_refl]. }
  congruence.
Qed.

Lemma no_newline_app a b :
  ~ In NEWLINE a -> ~ In NEWLINE b -> ~ In NEWLINE (a ++ b).
Proof. intros Ha Hb H. apply in_app_or in H. tauto. Qed.

Lemma no_newline_format n : ~ In NEWLINE (format_int n).
Proof.
  unfold format_int. induction (Nat.to_uint n); simpl; intros H;
    try (destruct H as [H|H]; [discriminate|]); auto.
Qed.

Ltac no_newline :=
  repeat apply no_newline_app;
  first [ apply no_newline_format
        | assumption
        | apply not_in_literal; reflexivity ].

Lemma finding_no_newline sql_content x :
  In x (fst (validate_sql_syntax sql_content))
  \/ In x (snd (validate_sql_syntax sql_content)) ->
  ~ In NEWLINE x.
Proof.
  rewrite validate_spec. cbn [fst snd]. intros [H|H].
  - apply in_errors_from in H as (k & raw & _ & H).
    apply in_line_errors in H as [_ [[-> _]|[-> _]]];
      unfold constraint_error, do_block_error; no_newline.
  - apply in_warnings_from in H as (k & raw & _ & H).
    apply in_line_warnings in H as (_ & -> & _).
    unfold function_warning. no_newline.
Qed.

Lemma indented_ok (l : list str) :
  (forall x, In x l -> ~ In NEWLINE x) ->
  Forall printed_ok (map (fun e => lit "  " ++ e) l).
Proof.
  intros H. apply Forall_forall. intros s Hs.
  apply in_map_iff in Hs as (e & <- & He). left.
  specialize (H e He). no_newline.
Qed.

Lemma main_out_ok sql_content :
  Forall printed_ok (fst (main (Opened sql_content))).
Proof.
  pose proof (finding_no_newline sql_content) as Hfind. unfold main.
  destruct (validate_sql_syntax sql_content) as [errors warnings].
  cbn [fst snd] in *.
  assert (He : Forall printed_ok (map (fun e => lit "  " ++ e) errors)).
  { apply indented_ok. intros x Hx. apply Hfind. now left. }
  assert (Hw : Forall printed_ok (map (fun e => lit "  " ++ e) warnings)).
  { apply indented_ok. intros x Hx. apply Hfind. now right. }
  assert (Hs : printed_ok
                 (statement_line (length (split SEMICOLON sql_content)))).
  { right. eexists. split; [reflexivity|]. no_newline. }
  destruct errors as [|error errors];
    destruct warnings as [|warning warnings];
    repeat (apply Forall_app; split); try assumption;
    repeat (apply Forall_cons); try apply Forall_nil.
  all: try (left; no_newline; fail).
  all: right; eexists; (split; [reflexivity|]); no_newline.
Qed.

Lemma split_stdout out :
  split NEWLINE (stdout_text out)
  = concat (map (split NEWLINE) out) ++ [[]].
Proof.
  induction out as [|s out IH]; [reflexivity|].
  unfold stdout_text in *. cbn [map concat].
  rewrite <- app_assoc. cbn [app].
  now rewrite split_app, IH, app_assoc.
Qed.

Lemma line_of_arg s y :
  printed_ok s -> y <> [] -> ~ In NEWLINE y ->
  (In y (split NEWLINE s) <-> s = y \/ s = NEWLINE :: y).
Proof.
  intros [Hs|(r & -> & Hr)] Hy Hny.
  - rewrite (split_no_sep NEWLINE s Hs). cbn [In]. split.
    + intros [H|[]]. now left.
    + intros [H|H]; [now left|]. subst s. destruct Hs. now left.
  - cbn [split]. rewrite chr_eqb_refl, (split_no_sep NEWLINE r Hr).
    cbn [In]. split.
    + intros [H|[H|[]]]; [congruence|]. right. now subst.
    + intros [H|H].
      * subst y. destruct Hny. now left.
      * injection H as ->. right. now left.
Qed.

Lemma lines_of_stdout out y :
  Forall printed_ok out -> y <> [] -> ~ In NEWLINE y ->
  (In y (split NEWLINE (stdout_text out)) <->
   In y out \/ In (NEWLINE :: y) out).
Proof.
  intros Hok Hy Hny. rewrite split_stdout, in_app_iff.
  assert (Hnil : In y [[]] <-> False).
  { split; [intros [H|[]]; congruence|intros []]. }
  rewrite Hnil. clear Hnil.
  induction Hok as [|s out Hs Hok IH]; cbn [map concat In].
  - tauto.
  - rewrite in_app_iff, (line_of_arg s y Hs Hy Hny). tauto.
Qed.

Lemma newlines_of_arg s :
  printed_ok s ->
  count_occ N.eq_dec s NEWLINE = if leads_newline s then 1 else 0.
Proof.
  intros [Hs|(r & -> & Hr)].
  - rewrite (proj1 (count_occ_not_In N.eq_dec s NEWLINE) Hs).
    destruct s as [|c s]; [reflexivity|]. cbn [leads_newline].
    destruct (chr_eqb c NEWLINE) eqn:E; [|reflexivity].
    apply chr_eqb_eq in E. subst c. destruct Hs. now left.
  - cbn [leads_newline]. rewrite chr_eqb_refl.
    rewrite count_occ_cons_eq by reflexivity.
    f_equal. now apply count_occ_not_In.
Qed.

Lemma stdout_text_cons s out :
  stdout_text (s :: out) = s ++ NEWLINE :: stdout_text out.
Proof.
  unfold stdout_text. cbn [map concat]. now rewrite <- app_assoc.
Qed.

Lemma newlines_of_stdout out :
  Forall printed_ok out ->
  count_occ N.eq_dec (stdout_text out) NEWLINE
  = length out + length (filter leads_newline out).
Proof.
  intros Hok. induction Hok as [|s out Hs Hok IH]; [reflexivity|].
  rewrite stdout_text_cons, count_occ_app.
  change (@count_occ char) with (@count_occ N).
  rewrite (newlines_of_arg s Hs).
  rewrite count_occ_cons_eq by reflexivity.
  change (@count_occ char) with (@count_occ N). rewrite IH.
  cbn [filter length]. destruct (leads_newline s); cbn [length]; lia.
Qed.

Lemma filter_indented (l : list str) :
  filter leads_newline (map (fun e => lit "  " ++ e) l) = [].
Proof. induction l as [|e l IH]; [reflexivity|exact IH]. Qed.

Lemma report_newline_led sql_content :
  length (fst (main (Opened sql_content)))
  = 6 + length (fst (validate_sql_syntax sql_content))
    + length (snd (validate_sql_syntax sql_content))
  /\ length (filter leads_newline (fst (main (Opened sql_content))))
     = match snd (validate_sql_syntax sql_content) with
       | [] => 1
       | _ :: _ => 2
       end.
Proof.
  unfold main.
  destruct (validate_sql_syntax sql_content) as [errors warnings].
  cbn [fst snd]. split.
  - destruct errors; destruct warnings;
      rewrite ?length_app, ?length_map; simpl; unfold str, char; lia.
  - destruct errors as [|error errors];
      destruct warnings as [|warning warnings];
      rewrite ?filter_app, ?filter_indented, ?length_app; reflexivity.
Qed.

Lemma report_no_led_indented sql_content x :
  ~ In (NEWLINE :: lit "  " ++ x) (fst (main (Opened sql_content))).
Proof.
  unfold main.
  destruct (validate_sql_syntax sql_content) as [errors warnings].
  cbn [fst]. intros Hin.
  destruct errors as [|error errors]; destruct warnings as [|warning warnings];
    repeat (apply in_app_or in Hin; destruct Hin as [Hin|Hin]);
    try (apply in_map_iff in Hin as (y & Hy & _); discriminate);
    repeat (destruct Hin as [Hin|Hin]; [discriminate|]);
    destruct Hin.
Qed.

(** X13.  In the report of an opened file, the output lines that begin
    with two spaces are exactly the errors and the warnings returned by
    the validator, each after two spaces; this holds for the strings passed
    to [print] and for the lines of the text written.  The text written has
    [7 + len(errors) + len(warnings)] lines, and one more when there is a
    warning, because the statement line and the warnings banner begin
    with a newline: 7 lines for scenario 1 and 9 for scenario 5. *)
Theorem report_lists_findings :
  (forall sql_content,
     (forall x,
        In (lit "  " ++ x) (fst (main (Opened sql_content))) <->
        In x (fst (validate_sql_syntax sql_content))
        \/ In x (snd (validate_sql_syntax sql_content)))
     /\ (forall x,
           In (lit "  " ++ x)
              (split NEWLINE (stdout_text (fst (main (Opened sql_content)))))
           <-> In x (fst (validate_sql_syntax sql_content))
               \/ In x (snd (validate_sql_syntax sql_content)))
     /\ count_occ N.eq_dec (stdout_text (fst (main (Opened sql_content))))
          NEWLINE
        = 7 + length (fst (validate_sql_syntax sql_content))
          + length (snd (validate_sql_syntax sql_content))
          + match snd (validate_sql_syntax sql_content) with
            | [] => 0
            | _ :: _ => 1
            end)
  /\ count_occ N.eq_dec (stdout_text (fst (main (Opened scenario1)))) NEWLINE
     = 7
  /\ count_occ N.eq_dec (stdout_text (fst (main (Opened scenario5)))) NEWLINE
     = 9.
Proof.
  split; [|vm_compute; split; reflexivity].
  intros sql_content. split; [|split].
  - intros x. apply in_report_indented.
  - intros x. destruct (in_dec N.eq_dec NEWLINE x) as [Hnl|Hnl].
    + split.
      * intros H. apply split_pieces in H. destruct H.
        apply in_or_app. now right.
      * intros H. now apply finding_no_newline in H.
    + rewrite lines_of_stdout.
      * rewrite in_report_indented. split; [|tauto].
        intros [H|H]; [assumption|].
        now apply report_no_led_indented in H.
      * apply main_out_ok.
      * discriminate.
      * no_newline.
  - rewrite newlines_of_stdout by apply main_out_ok.
    destruct (report_newline_led sql_content) as [-> ->].
    destruct (snd (validate_sql_syntax sql_content)); lia.
Qed.
